(** * Address spaces of the Nachos kernel (userprog/addrspace.cc)

    A shallow embedding of [AddrSpace]: the two constructors (from an
    executable image, and from a parent for fork), [InitRegisters] and
    [Translate], over an explicit kernel state that holds the global frame
    counter, the machine's main memory and register file, and the store of
    heap-allocated page tables. [DEBUG] output is left out; the destructor
    and the context-switch hooks are not modelled. *)

From Stdlib Require Import ZArith Lia.
From Stdlib.Strings Require Import Byte.
From stdpp Require Import base tactics option list list_numbers gmap.

Local Open Scope Z_scope.

(** ** 32-bit integers

    [int] and [unsigned int] values are kept as [Z]; every conversion and
    every operation that can leave the range is wrapped explicitly. *)

Definition to_uint (x : Z) : Z := x mod 2 ^ 32.

Definition to_int (x : Z) : Z :=
  let u := x mod 2 ^ 32 in if u <? 2 ^ 31 then u else u - 2 ^ 32.

Definition INT_MAX : Z := 2 ^ 31 - 1.

(** ** Outcomes of kernel code

    [Abort] is a failed [ASSERT] (the kernel halts); [Undefined] is C
    undefined behaviour: an access outside an array, through a dangling
    pointer, or of an uninitialised variable. *)

Inductive result (A : Type) : Type :=
  | Done (a : A)
  | Abort
  | Undefined.

Arguments Done {A} a.
Arguments Abort {A}.
Arguments Undefined {A}.

#[global] Instance result_ret : MRet result := @Done.

#[global] Instance result_bind : MBind result := fun A B f m =>
  match m with
  | Done a => f a
  | Abort => Abort
  | Undefined => Undefined
  end.

(** Modelled from the spec: the macro [ASSERT] (utility.h), "fatal
    assertion for invariant violations": a condition that does not hold
    aborts the operation on the spot. *)
Definition ASSERT (b : bool) : result unit :=
  if b then Done tt else Abort.

(** A read that is undefined when there is nothing to read. *)
Definition defined {A : Type} (o : option A) : result A :=
  match o with
  | Some a => Done a
  | None => Undefined
  end.

(** ** Data model *)

(** The exception codes this file returns (the enumeration itself is
    declared by the machine). *)
Inductive ExceptionType : Type :=
  | NoException
  | PageFaultException
  | BusErrorException
  | AddressErrorException.

#[global] Instance ExceptionType_eq_dec : EqDecision ExceptionType.
Proof. solve_decision. Defined.

Record TranslationEntry : Type := mkEntry {
  virtualPage : Z;
  physicalPage : Z;
  valid : bool;
  readOnly : bool;
  use : bool;
  dirty : bool;
}.

#[global] Instance TranslationEntry_eq_dec : EqDecision TranslationEntry.
Proof. solve_decision. Defined.

(** [entry->use = TRUE] *)
Definition set_use (e : TranslationEntry) : TranslationEntry :=
  {| virtualPage := virtualPage e; physicalPage := physicalPage e;
     valid := valid e; readOnly := readOnly e;
     use := true; dirty := dirty e |}.

(** A page table lives on the heap; a [TranslationEntry *] is its address. *)
Definition loc : Type := positive.

Record AddrSpace : Type := mkAddrSpace {
  pageTable : loc;
  numPages : Z;
}.

(** The state the kernel code of this file reads and writes. *)
Record State : Type := mkState {
  totalPagesCount : Z;                          (* the global counter *)
  mainMemory : list byte;                       (* machine->mainMemory *)
  registers : list Z;                           (* the machine's registers *)
  heap : gmap loc (list TranslationEntry);      (* page tables made by new *)
}.

Definition set_totalPagesCount (c : Z) (s : State) : State :=
  {| totalPagesCount := c; mainMemory := mainMemory s;
     registers := registers s; heap := heap s |}.

Definition set_mainMemory (m : list byte) (s : State) : State :=
  {| totalPagesCount := totalPagesCount s; mainMemory := m;
     registers := registers s; heap := heap s |}.

Definition set_registers (r : list Z) (s : State) : State :=
  {| totalPagesCount := totalPagesCount s; mainMemory := mainMemory s;
     registers := r; heap := heap s |}.

Definition set_heap (h : gmap loc (list TranslationEntry)) (s : State) : State :=
  {| totalPagesCount := totalPagesCount s; mainMemory := mainMemory s;
     registers := registers s; heap := h |}.

(** [p[i]] for a pointer [p] to a page table: undefined when [p] is not a
    live table or [i] is outside it. *)
Definition table_at (s : State) (p : loc) : result (list TranslationEntry) :=
  defined (heap s !! p).

Definition entry_at (tbl : list TranslationEntry) (i : Z) : result TranslationEntry :=
  if i <? 0 then Undefined else defined (tbl !! Z.to_nat i).

(** An executable file, as its bytes. *)
Definition OpenFile : Type := list byte.

(** Modelled from the spec: [OpenFile::ReadAt] (the file system is not part
    of this file), "readAt(buffer, length, fileOffset)": the bytes of the
    file from [position] on, at most [numBytes] of them. *)
Definition ReadAt (executable : OpenFile) (numBytes position : Z) : list byte :=
  if (numBytes <=? 0) || (position <? 0) then []
  else take (Z.to_nat numBytes) (drop (Z.to_nat position) executable).

(** Storing [bs] at [&mainMemory[addr]]. *)
Definition write_bytes (m : list byte) (addr : Z) (bs : list byte) : result (list byte) :=
  if (0 <=? addr) && (addr + Z.of_nat (length bs) <=? Z.of_nat (length m)) then
    Done (take (Z.to_nat addr) m ++ bs ++ drop (Z.to_nat addr + length bs)%nat m)
  else Undefined.

(** The memory [write_bytes] leaves when the bytes fit. *)
Definition store_bytes (m : list byte) (addr : Z) (bs : list byte) : list byte :=
  take (Z.to_nat addr) m ++ bs ++ drop (Z.to_nat addr + length bs)%nat m.

(** [bzero(m, n)] *)
Definition bzero (m : list byte) (n : Z) : result (list byte) :=
  if n <=? Z.of_nat (length m) then
    Done (replicate (Z.to_nat n) x00 ++ drop (Z.to_nat n) m)
  else Undefined.

(** The NOFF header (noff.h), with the fields this file names. *)
Record Segment : Type := mkSegment {
  virtualAddr : Z;
  inFileAddr : Z;
  size : Z;
}.

Record NoffHeader : Type := mkNoffHeader {
  noffMagic : Z;
  code : Segment;
  initData : Segment;
  uninitData : Segment;
}.

(** Modelled from the spec: the macro [divRoundUp] (utility.h), "that size
    divided by page size, rounded up". *)
Definition divRoundUp (n s : Z) : Z :=
  n / s + (if n mod s >? 0 then 1 else 0).

(** The loop that fills a new page table: entry [i] maps virtual page [i]
    to frame [i + totalPagesCount]. *)
Definition new_entry (count i : Z) : TranslationEntry :=
  {| virtualPage := i; physicalPage := to_uint (i + count);
     valid := true; readOnly := false; use := false; dirty := false |}.

Definition fill_pageTable (numPages count : Z) : list TranslationEntry :=
  new_entry count <$> seqZ 0 numPages.

(** [new TranslationEntry[n]]: an address that holds no table yet. *)
Definition new_loc (s : State) : loc := fresh (dom (heap s)).

(** The loop [for(; i<parentPhysEnd; ++i, ++k) mainMemory[k] = mainMemory[i]].
    It runs [parentPhysEnd - i] times when [i < parentPhysEnd] and not at
    all otherwise; [n] counts the iterations that are left. *)
Fixpoint copy_loop (n : nat) (i k parentPhysEnd : Z) (m : list byte)
    : result (list byte) :=
  match n with
  | O => Done m
  | S n' =>
      if i <? parentPhysEnd then
        b ← defined (m !! Z.to_nat i);
        if k <? Z.of_nat (length m) then
          copy_loop n' (to_uint (i + 1)) (to_uint (k + 1)) parentPhysEnd
                    (<[Z.to_nat k := b]> m)
        else Undefined
      else Done m
  end.

(** [for (i = from; i < from + n; i++) body(i)] over the state. *)
Fixpoint for_range (n : nat) (from : Z) (body : Z → State → result State)
    (s : State) : result State :=
  match n with
  | O => Done s
  | S n' => s' ← body from s; for_range n' (from + 1) body s'
  end.

(** * The code of addrspace.cc *)

Module Nachos.

Section Machine.

(** Constants of the simulated machine (machine.h): positive [int]s. *)
Variables PageSize NumPhysPages MemorySize : Z.

(** What the code takes for granted about them: pages hold whole words, and
    [MemorySize], the [int] constant [NumPhysPages * PageSize], is the size
    of [mainMemory]. *)
Definition machine_ok : Prop :=
  0 < PageSize ∧ PageSize mod 4 = 0 ∧
  MemorySize = NumPhysPages * PageSize ∧ MemorySize ≤ INT_MAX.

(** ** AddrSpace::Translate *)

Definition Translate (this : AddrSpace) (virtAddr : Z) (pgTable : loc)
    (pgSize : Z) (s : State) : result (ExceptionType * option Z * State) :=
  (* check for alignment errors *)
  if negb (Z.land virtAddr 3 =? 0) then
    Done (AddressErrorException, None, s)
  else
    let vpn := to_uint virtAddr / PageSize in
    let offset := to_uint virtAddr mod PageSize in
    if vpn >=? pgSize then
      Done (AddressErrorException, None, s)
    else
      (* pageTable[vpn]: the member, not the argument *)
      tbl ← table_at s (pageTable this);
      entry ← entry_at tbl vpn;
      if negb (valid entry) then
        Done (PageFaultException, None, s)
      else
        let pageFrame := to_uint (physicalPage entry) in
        if pageFrame >=? NumPhysPages then
          Done (BusErrorException, None, s)
        else
          let s' :=
            set_heap (<[pageTable this :=
                          <[Z.to_nat vpn := set_use entry]> tbl]> (heap s)) s in
          let physAddr := to_int (to_uint (pageFrame * PageSize + offset)) in
          _ ← ASSERT ((physAddr >=? 0) && (to_int (physAddr + 4) <=? MemorySize));
          Done (NoException, Some physAddr, s').


(** ** AddrSpace::getNumPages, AddrSpace::getStartPhysPage *)

Definition getNumPages (this : AddrSpace) : Z := numPages this.

Definition getStartPhysPage (this : AddrSpace) (s : State) : result Z :=
  tbl ← table_at s (pageTable this);
  entry ← entry_at tbl 0;
  Done (to_uint (physicalPage entry)).

(** ** The block shared by both constructors: allocate the table, fill it,
    advance the global counter and check it (lines 93-107 and 169-187) *)

Definition setup_pageTable (numPages : Z) (s : State) : result (AddrSpace * State) :=
  let p := new_loc s in
  let tbl := fill_pageTable numPages (totalPagesCount s) in
  let s := set_heap (<[p := tbl]> (heap s)) s in
  (* totalPagesCount += numPages *)
  let s := set_totalPagesCount (to_int (totalPagesCount s + numPages)) s in
  _ ← ASSERT (totalPagesCount s <=? NumPhysPages);
  Done (mkAddrSpace p numPages, s).

(** ** AddrSpace::AddrSpace(OpenFile *executable) *)

Variable UserStackSize : Z.
Variable NOFFMAGIC : Z.
(** Byte swap of a word on a host of the other endianness (the host layer
    is not part of this file). *)
Variable WordToHost : Z → Z.
(** [(char * )&noffH]: how the host lays a [NoffHeader] out in memory. *)
Variable sizeof_noffH : Z.
Variable cast_noffH : list byte → NoffHeader.

Definition SwapSegment (seg : Segment) : Segment :=
  {| virtualAddr := WordToHost (virtualAddr seg);
     inFileAddr := WordToHost (inFileAddr seg);
     size := WordToHost (size seg) |}.

Definition SwapHeader (noffH : NoffHeader) : NoffHeader :=
  {| noffMagic := WordToHost (noffMagic noffH);
     code := SwapSegment (code noffH);
     initData := SwapSegment (initData noffH);
     uninitData := SwapSegment (uninitData noffH) |}.

(** Lines 73-77: read the header, swap it if need be, check the magic. *)
Definition read_header (executable : OpenFile) : result NoffHeader :=
  let noffH := cast_noffH (ReadAt executable sizeof_noffH 0) in
  let noffH :=
    if negb (noffMagic noffH =? NOFFMAGIC)
       && (WordToHost (noffMagic noffH) =? NOFFMAGIC)
    then SwapHeader noffH else noffH in
  _ ← ASSERT (noffMagic noffH =? NOFFMAGIC);
  Done noffH.

(** Lines 80-83: how big is the address space? *)
Definition image_size (noffH : NoffHeader) : Z :=
  to_uint (size (code noffH) + size (initData noffH) + size (uninitData noffH)
           + UserStackSize).

Definition image_numPages (noffH : NoffHeader) : Z :=
  divRoundUp (image_size noffH) PageSize.

(** Lines 114-122: zero out memory. *)
Definition zero_memory (s : State) : result State :=
  let size := to_uint (totalPagesCount s * PageSize) in
  m ← bzero (mainMemory s) size;
  Done (set_mainMemory m s).

(** Lines 128-135 and 136-143: copy one segment in. [physicalAddress] is
    the local variable of that name, [None] while it is uninitialised. *)
Definition load_segment (this : AddrSpace) (executable : OpenFile)
    (seg : Segment) (physicalAddress : option Z) (s : State)
    : result (option Z * State) :=
  if size seg >? 0 then
    '(_, written, s) ← Translate this (virtualAddr seg) (pageTable this)
                                 (numPages this) s;
    let physicalAddress :=
      match written with Some a => Some a | None => physicalAddress end in
    a ← defined physicalAddress;
    m ← write_bytes (mainMemory s) (to_uint a)
                    (ReadAt executable (size seg) (inFileAddr seg));
    Done (physicalAddress, set_mainMemory m s)
  else Done (physicalAddress, s).

Definition load_segments (this : AddrSpace) (executable : OpenFile)
    (noffH : NoffHeader) (s : State) : result State :=
  '(physicalAddress, s) ← load_segment this executable (code noffH) None s;
  '(_, s) ← load_segment this executable (initData noffH) physicalAddress s;
  Done s.

Definition AddrSpace_image (executable : OpenFile) (s : State)
    : result (AddrSpace * State) :=
  noffH ← read_header executable;
  let numPages := image_numPages noffH in
  _ ← ASSERT (numPages <=? NumPhysPages);
  '(this, s) ← setup_pageTable numPages s;
  s ← zero_memory s;
  s ← load_segments this executable noffH s;
  Done (this, s).

(** ** AddrSpace::AddrSpace(unsigned numParentPages, unsigned parentStartPhysPage) *)

Definition copy_parent (numPages parentStartPhysPage k : Z) (s : State)
    : result State :=
  let parentPhysEnd := to_uint (parentStartPhysPage + numPages * PageSize) in
  let i := to_uint (parentStartPhysPage * PageSize) in
  m ← copy_loop (Z.to_nat (parentPhysEnd - i)) i k parentPhysEnd (mainMemory s);
  Done (set_mainMemory m s).

Definition AddrSpace_fork (numParentPages parentStartPhysPage : Z) (s : State)
    : result (AddrSpace * State) :=
  let numPages := numParentPages in
  let k := to_uint (totalPagesCount s * PageSize) in
  _ ← ASSERT (numPages <=? NumPhysPages);
  '(this, s) ← setup_pageTable numPages s;
  s ← copy_parent numPages parentStartPhysPage k s;
  Done (this, s).

(** [this] is an address space one of the two constructors returned when
    run in state [s], and [s'] the state it left. *)
Definition returned_by_constructor (s : State) (this : AddrSpace) (s' : State)
    : Prop :=
  (∃ executable, AddrSpace_image executable s = Done (this, s')) ∨
  (∃ numParentPages parentStartPhysPage,
     0 ≤ numParentPages ∧
     AddrSpace_fork numParentPages parentStartPhysPage s = Done (this, s')).

(** ** AddrSpace::InitRegisters *)

Variables NumTotalRegs PCReg NextPCReg StackReg : Z.

(** Modelled from the spec: [Machine::WriteRegister] (the machine is not
    part of this file), "a register file with addressable registers": the
    register [num] receives [value]. *)
Definition WriteRegister (num value : Z) (s : State) : result State :=
  if (0 <=? num) && (num <? Z.of_nat (length (registers s))) then
    Done (set_registers (<[Z.to_nat num := value]> (registers s)) s)
  else Undefined.

(** What the code takes for granted about the register numbers: three
    different registers of the machine. *)
Definition register_layout_ok : Prop :=
  0 ≤ PCReg < NumTotalRegs ∧ 0 ≤ NextPCReg < NumTotalRegs ∧
  0 ≤ StackReg < NumTotalRegs ∧
  PCReg ≠ NextPCReg ∧ PCReg ≠ StackReg ∧ NextPCReg ≠ StackReg.

Definition InitRegisters (this : AddrSpace) (s : State) : result State :=
  s ← for_range (Z.to_nat NumTotalRegs) 0 (λ i, WriteRegister i 0) s;
  s ← WriteRegister PCReg 0 s;
  s ← WriteRegister NextPCReg 4 s;
  WriteRegister StackReg (to_int (to_uint (numPages this * PageSize - 16))) s.

End Machine.

(** ** Vocabulary of the properties *)

(** [s'] has the tables of [s], up to use bits, and the same counter. *)
Definition same_mappings (s s' : State) : Prop :=
  totalPagesCount s' = totalPagesCount s ∧
  ∀ p tbl, heap s !! p = Some tbl →
    ∃ tbl', heap s' !! p = Some tbl' ∧ set_use <$> tbl' = set_use <$> tbl.

(** The ceiling of [a / b]. *)
Definition ceil_div (a b : Z) : Z := (a + b - 1) / b.

Section Constructed.

Variable NumPhysPages : Z.

(** What a constructor that started in [s] and returned [this] in [s'] has
    done to the page table and the frame counter. *)
Definition constructed (s : State) (this : AddrSpace) (s' : State) : Prop :=
  let c := totalPagesCount s in
  let n := numPages this in
  0 ≤ n ∧ heap s !! pageTable this = None ∧
  (* right after the filling loop and the increment *)
  (∃ s1, setup_pageTable NumPhysPages n s = Done (this, s1) ∧
     heap s1 !! pageTable this = Some (fill_pageTable n c) ∧
     totalPagesCount s1 = c + n) ∧
  Z.of_nat (length (fill_pageTable n c)) = n ∧
  (∀ i, 0 ≤ i < n →
     fill_pageTable n c !! Z.to_nat i
     = Some {| virtualPage := i; physicalPage := i + c; valid := true;
               readOnly := false; use := false; dirty := false |}) ∧
  (* when the constructor returns *)
  totalPagesCount s' = c + n ∧
  ∃ tbl, heap s' !! pageTable this = Some tbl ∧
    Z.of_nat (length tbl) = n ∧
    (∀ i, 0 ≤ i < n →
       ∃ e, tbl !! Z.to_nat i = Some e ∧
         virtualPage e = i ∧ physicalPage e = i + c ∧
         valid e = true ∧ readOnly e = false ∧ dirty e = false) ∧
    physicalPage <$> tbl = seqZ c n ∧
    NoDup (physicalPage <$> tbl) ∧
    (∀ e, e ∈ tbl → 0 ≤ physicalPage e < NumPhysPages) ∧
    (c = 9 → n = 3 →
       physicalPage <$> tbl = [9; 10; 11] ∧ totalPagesCount s' = 12).

End Constructed.

End Nachos.

Import Nachos.

(** ** A concrete machine

    The stock configuration (128-byte pages, 32 frames, a 1024-byte user
    stack, 40 registers) on a little-endian host, and a small executable:
    a 40-byte header followed by a 128-byte code segment. It is used to run
    the definitions above on concrete inputs. *)

Module Sample.

Definition le_word (bs : list byte) : Z :=
  foldr (λ b acc, Z.of_N (Byte.to_N b) + 256 * acc) 0 (take 4 bs).

Definition word_at (bs : list byte) (k : nat) : Z := le_word (drop (4 * k) bs).

Definition le_segment (bs : list byte) (k : nat) : Segment :=
  {| virtualAddr := word_at bs k; inFileAddr := word_at bs (k + 1);
     size := word_at bs (k + 2) |}.

Definition le_noffH (bs : list byte) : NoffHeader :=
  {| noffMagic := word_at bs 0; code := le_segment bs 1;
     initData := le_segment bs 4; uninitData := le_segment bs 7 |}.

Definition word_bytes (w : Z) : list byte :=
  (λ k, default x00 (Byte.of_N (Z.to_N ((w / 256 ^ k) mod 256)))) <$> seqZ 0 4.

Definition magic : Z := 0xbadfad.

(** Code of 128 bytes at file offset 40, for virtual address 0. *)
Definition image : OpenFile :=
  concat (word_bytes <$> [magic; 0; 40; 128; 0; 0; 0; 0; 0; 0])
  ++ replicate 128 x2a.

(** The machine right after boot: nothing committed, memory cleared. *)
Definition boot : State :=
  {| totalPagesCount := 0; mainMemory := replicate 4096 x00;
     registers := replicate 40 0; heap := ∅ |}.

Abbreviation translate := (Translate 128 32 4096).
Abbreviation exec :=
  (AddrSpace_image 128 32 4096 1024 magic id 40 le_noffH).
Abbreviation fork := (AddrSpace_fork 128 32).
Abbreviation init_registers := (InitRegisters 128 40 34 35 29).

(** One program loaded: frames 0..8. *)
Definition one_loaded : result (AddrSpace * State) := exec image boot.

(** Two programs loaded in a row: frames 0..8 and 9..17. *)
Definition two_loaded : result (AddrSpace * AddrSpace * State) :=
  '(first, s) ← exec image boot;
  '(second, s) ← exec image s;
  Done (first, second, s).

(** A hand-made mapping: page 0 on frame 9, page 1 not valid, page 2 with
    a frame number the machine does not have; and a second table. *)
Definition space : AddrSpace := {| pageTable := 1%positive; numPages := 3 |}.

Definition table : list TranslationEntry :=
  [ mkEntry 0 9 true false false false;
    mkEntry 1 10 false false false false;
    mkEntry 2 40 true false false false ].

Definition other_table : list TranslationEntry :=
  [ mkEntry 0 3 false false false false ].

Definition mapped : State :=
  {| totalPagesCount := 12; mainMemory := replicate 4096 x00;
     registers := replicate 40 0;
     heap := {[ 1%positive := table; 2%positive := other_table ]} |}.

(** What a constructor returned (or the fallbacks, had it not returned). *)
Definition space_of (r : result (AddrSpace * State)) : AddrSpace :=
  match r with Done (this, _) => this | _ => space end.

Definition state_of (r : result (AddrSpace * State)) : State :=
  match r with Done (_, s) => s | _ => boot end.

(** The first program, the second one loaded after it, and a child forked
    from the second. *)
Definition first : AddrSpace := space_of one_loaded.
Definition loaded1 : State := state_of one_loaded.
Definition second : AddrSpace := space_of (exec image loaded1).
Definition loaded2 : State := state_of (exec image loaded1).
Definition child : AddrSpace := space_of (fork 9 9 loaded2).
Definition forked : State := state_of (fork 9 9 loaded2).

(** The state [translate space 4 _ 3 mapped] leaves: entry 0 marked used. *)
Definition mapped_used : State :=
  set_heap (<[1%positive := <[0%nat := set_use (mkEntry 0 9 true false false false)]> table]>
              (heap mapped)) mapped.

(** The same machine with a 256-byte user stack, on which [image] takes
    three pages; three such programs fill frames 0..8, a fourth gets the
    next three. *)
Abbreviation small_exec :=
  (AddrSpace_image 128 32 4096 256 magic id 40 le_noffH).

Definition nine_committed : State :=
  state_of (small_exec image (state_of (small_exec image
    (state_of (small_exec image boot))))).

Definition fourth : AddrSpace := space_of (small_exec image nine_committed).
Definition twelve_committed : State := state_of (small_exec image nine_committed).

(** The frame numbers in the table of [this], and entry [i] of table [p]. *)
Definition frames_of (this : AddrSpace) (s : State) : option (list Z) :=
  match heap s !! pageTable this with
  | Some tbl => Some (physicalPage <$> tbl)
  | None => None
  end.

Definition entry_of (p : loc) (i : nat) (s : State) : option TranslationEntry :=
  match heap s !! p with
  | Some tbl => tbl !! i
  | None => None
  end.

(** A host of the other byte order: words are read most significant byte
    first and [WordToHost] reverses the four bytes of a word. *)
Definition bswap (w : Z) : Z := le_word (reverse (word_bytes w)).

Abbreviation swapping_exec :=
  (AddrSpace_image 128 32 4096 1024 magic bswap 40 le_noffH).

(** [image] with every header word byte-swapped, and a file that is no
    NOFF image at all. *)
Definition swapped_image : OpenFile :=
  concat (word_bytes <$> (bswap <$> [magic; 0; 40; 128; 0; 0; 0; 0; 0; 0]))
  ++ replicate 128 x2a.

Definition not_an_image : OpenFile := replicate 168 x07.

(** An image whose code segment is linked at the odd address 2. *)
Definition misaligned_image : OpenFile :=
  concat (word_bytes <$> [magic; 2; 40; 128; 0; 0; 0; 0; 0; 0])
  ++ replicate 128 x2a.

(** An image with 8 bytes of initialised data (file offset 168, virtual
    address 128) after its code. *)
Definition data_image : OpenFile :=
  concat (word_bytes <$> [magic; 0; 40; 128; 128; 168; 8; 0; 0; 0])
  ++ replicate 128 x2a ++ replicate 8 x11.

(** The machine with every frame committed. *)
Definition full : State :=
  {| totalPagesCount := 32; mainMemory := replicate 4096 x00;
     registers := replicate 40 0; heap := ∅ |}.

(** The first program forked right after it was loaded: the parent is on
    frames 0..8, the child on 9..17. *)
Definition child0 : AddrSpace := space_of (fork 9 0 loaded1).
Definition forked0 : State := state_of (fork 9 0 loaded1).

(** The machine at boot, but with something left in every register. *)
Definition used_registers : State :=
  {| totalPagesCount := 0; mainMemory := replicate 4096 x00;
     registers := replicate 40 7; heap := ∅ |}.

(** The bytes of [n] frames from frame [frame] on. *)
Definition frames (frame n : Z) (s : State) : list byte :=
  take (Z.to_nat (n * 128)) (drop (Z.to_nat (frame * 128)) (mainMemory s)).

End Sample.

(** * Properties *)

(** ** 32-bit arithmetic *)

Lemma to_uint_range x : 0 ≤ to_uint x < 2 ^ 32.
Proof. unfold to_uint. apply Z.mod_pos_bound. lia. Qed.

Lemma to_uint_small x : 0 ≤ x < 2 ^ 32 → to_uint x = x.
Proof. intros H. unfold to_uint. by apply Z.mod_small. Qed.

Lemma to_int_small x : - 2 ^ 31 ≤ x < 2 ^ 31 → to_int x = x.
Proof.
  intros H. unfold to_int.
  destruct (Z.neg_nonneg_cases x) as [Hneg | Hpos].
  - assert (x mod 2 ^ 32 = x + 2 ^ 32) as ->.
    { symmetry. apply (Z.mod_unique_pos _ _ (-1)); lia. }
    destruct (Z.ltb_spec (x + 2 ^ 32) (2 ^ 31)); lia.
  - rewrite Z.mod_small by lia.
    destruct (Z.ltb_spec x (2 ^ 31)); lia.
Qed.

Lemma to_int_to_uint x : to_int (to_uint x) = to_int x.
Proof. unfold to_int, to_uint. by rewrite Z.mod_mod. Qed.

(** The two low bits of an [int] are those of its unsigned reading. *)
Lemma land_3_mod_4 x : Z.land x 3 = x mod 4.
Proof. apply (Z.land_ones x 2). lia. Qed.

Lemma to_uint_mod_4 x : to_uint x mod 4 = x mod 4.
Proof.
  unfold to_uint. symmetry.
  rewrite (Z.div_mod x (2 ^ 32)) at 1 by lia.
  replace (2 ^ 32) with (4 * 2 ^ 30) at 1 by lia.
  rewrite <- Z.mul_assoc, Z.add_comm, Z.mul_comm, Z_mod_plus_full.
  reflexivity.
Qed.

(** An aligned address is at least a word away from the end of its page. *)
Lemma aligned_offset_bound x PageSize :
  0 < PageSize → PageSize mod 4 = 0 → x mod 4 = 0 →
  0 ≤ x mod PageSize ≤ PageSize - 4 ∧ (x mod PageSize) mod 4 = 0.
Proof.
  intros Hpos Hps Hx.
  pose proof (Z.mod_pos_bound x PageSize Hpos) as Hb.
  assert ((x mod PageSize) mod 4 = 0) as Hal.
  { apply Z.mod_divide in Hps as [q Hq]; [|lia].
    rewrite (Z.mod_eq x PageSize) by lia.
    generalize (x / PageSize); intros d.
    replace (x - PageSize * d) with (x + (- (q * d)) * 4) by (rewrite Hq; ring).
    by rewrite Z_mod_plus_full. }
  split; [|done].
  apply Z.mod_divide in Hps as [q Hq]; [|lia].
  apply Z.mod_divide in Hal as [r Hr]; [|lia].
  lia.
Qed.

(** ** Translate *)

Section TranslateProperties.

Variables PageSize NumPhysPages MemorySize : Z.

Local Abbreviation Translate := (Translate PageSize NumPhysPages MemorySize).
Local Abbreviation machine_ok := (machine_ok PageSize NumPhysPages MemorySize).

Implicit Types (this : AddrSpace) (s : State) (tbl : list TranslationEntry).

(** The state a successful translation leaves: the consulted entry is
    marked used. *)
Local Abbreviation mark_used this vpn entry tbl s :=
  (set_heap (<[pageTable this := <[Z.to_nat vpn := set_use entry]> tbl]> (heap s)) s).

Lemma Translate_misaligned this virtAddr pgTable pgSize s :
  Z.land virtAddr 3 ≠ 0 →
  Translate this virtAddr pgTable pgSize s = Done (AddressErrorException, None, s).
Proof.
  intros H. unfold Nachos.Translate.
  destruct (Z.eqb_spec (Z.land virtAddr 3) 0); [done|reflexivity].
Qed.

Lemma Translate_out_of_range this virtAddr pgTable pgSize s :
  Z.land virtAddr 3 = 0 → pgSize ≤ to_uint virtAddr / PageSize →
  Translate this virtAddr pgTable pgSize s = Done (AddressErrorException, None, s).
Proof.
  intros Hal Hvpn. unfold Nachos.Translate.
  rewrite Hal. simpl.
  destruct (Z.geb_spec (to_uint virtAddr / PageSize) pgSize); [reflexivity|lia].
Qed.

(** Past the two address checks, the call reads entry [vpn] of the table
    the object owns. *)
Lemma Translate_entry this virtAddr pgTable pgSize s tbl entry :
  Z.land virtAddr 3 = 0 →
  0 ≤ to_uint virtAddr / PageSize < pgSize →
  heap s !! pageTable this = Some tbl →
  tbl !! Z.to_nat (to_uint virtAddr / PageSize) = Some entry →
  Translate this virtAddr pgTable pgSize s =
    if negb (valid entry) then Done (PageFaultException, None, s)
    else if to_uint (physicalPage entry) >=? NumPhysPages
    then Done (BusErrorException, None, s)
    else
      let physAddr :=
        to_int (to_uint (to_uint (physicalPage entry) * PageSize
                         + to_uint virtAddr mod PageSize)) in
      _ ← ASSERT ((physAddr >=? 0) && (to_int (physAddr + 4) <=? MemorySize));
      Done (NoException, Some physAddr,
            mark_used this (to_uint virtAddr / PageSize) entry tbl s).
Proof.
  intros Hal [Hlo Hhi] Htbl Hentry. unfold Nachos.Translate.
  rewrite Hal. simpl.
  destruct (Z.geb_spec (to_uint virtAddr / PageSize) pgSize); [lia|].
  unfold table_at, entry_at. rewrite Htbl. simpl.
  destruct (Z.ltb_spec (to_uint virtAddr / PageSize) 0); [lia|].
  rewrite Hentry. reflexivity.
Qed.

(** On a sane machine the address of an aligned access through a frame the
    machine has fits in memory, with no wrap-around on the way. *)
Lemma physAddr_in_memory virtAddr pageFrame :
  machine_ok → Z.land virtAddr 3 = 0 → 0 ≤ pageFrame < NumPhysPages →
  let exact := pageFrame * PageSize + to_uint virtAddr mod PageSize in
  to_int (to_uint exact) = exact ∧ 0 ≤ exact ∧ exact + 4 ≤ MemorySize ∧
  to_int (exact + 4) = exact + 4.
Proof.
  intros (Hpos & Hps & Hmem & Hmax) Hal Hframe exact.
  rewrite land_3_mod_4, <- to_uint_mod_4 in Hal.
  destruct (aligned_offset_bound (to_uint virtAddr) PageSize Hpos Hps Hal)
    as [Hoff _].
  unfold INT_MAX in Hmax.
  assert (0 ≤ exact ∧ exact + 4 ≤ MemorySize) as [H0 H1].
  { unfold exact. split; [nia|]. subst MemorySize. nia. }
  rewrite to_int_to_uint, !to_int_small by lia. done.
Qed.

Lemma vpn_nonneg virtAddr : 0 < PageSize → 0 ≤ to_uint virtAddr / PageSize.
Proof.
  intros H. apply Z.div_pos; [|done]. apply to_uint_range.
Qed.

(** The table argument is never read. *)
Lemma Translate_ignores_pgTable this virtAddr pgTable pgTable' pgSize s :
  Translate this virtAddr pgTable pgSize s =
  Translate this virtAddr pgTable' pgSize s.
Proof. reflexivity. Qed.

(** Every way a call can end. *)
Lemma Translate_inv this virtAddr pgTable pgSize s exc written s' :
  Translate this virtAddr pgTable pgSize s = Done (exc, written, s') →
  (exc ≠ NoException ∧ written = None ∧ s' = s) ∨
  (∃ tbl entry,
     let vpn := to_uint virtAddr / PageSize in
     exc = NoException ∧
     Z.land virtAddr 3 = 0 ∧ 0 ≤ vpn < pgSize ∧
     heap s !! pageTable this = Some tbl ∧
     tbl !! Z.to_nat vpn = Some entry ∧
     valid entry = true ∧ to_uint (physicalPage entry) < NumPhysPages ∧
     written = Some (to_int (to_uint (to_uint (physicalPage entry) * PageSize
                                      + to_uint virtAddr mod PageSize))) ∧
     s' = mark_used this vpn entry tbl s).
Proof.
  unfold Nachos.Translate.
  destruct (Z.eqb_spec (Z.land virtAddr 3) 0) as [Hal|]; simpl;
    [|intros [= <- <- <-]; by left].
  destruct (Z.geb_spec (to_uint virtAddr / PageSize) pgSize) as [|Hvpn];
    [intros [= <- <- <-]; by left|].
  unfold table_at, entry_at.
  destruct (heap s !! pageTable this) as [tbl|] eqn:Htbl; simpl; [|done].
  destruct (Z.ltb_spec (to_uint virtAddr / PageSize) 0) as [|Hlo]; [done|].
  destruct (tbl !! Z.to_nat (to_uint virtAddr / PageSize)) as [entry|] eqn:He;
    simpl; [|done].
  destruct (valid entry) eqn:Hv; simpl; [|intros [= <- <- <-]; by left].
  destruct (Z.geb_spec (to_uint (physicalPage entry)) NumPhysPages) as [|Hpf];
    [intros [= <- <- <-]; by left|].
  match goal with |- context [ASSERT ?b] => destruct b end; simpl; [|done].
  intros [= <- <- <-]. right. exists tbl, entry. simpl.
  repeat split; try done; lia.
Qed.

(** C4: the checks of [Translate] come in a fixed order and the first that
    fires decides the outcome: a virtual address whose two low bits are not
    zero is an [AddressErrorException] whatever else holds; otherwise a
    virtual page number (the unsigned address divided by [PageSize]) at or
    past the table size is an [AddressErrorException]; otherwise an entry
    that is not valid is a [PageFaultException]; otherwise a frame number
    (the entry's physical page, read as unsigned) at or past [NumPhysPages]
    is a [BusErrorException]; otherwise the use bit of the entry is set to
    true and the call returns [NoException] with the address
    [physicalPage * PageSize + virtAddr mod PageSize]: in the state it
    leaves, the object's table holds at that page an entry whose use bit is
    true and whose other fields are those of the entry consulted, and
    nothing else has changed. The first four leave the state as it was. The
    entry is the one the object's table holds. *)
Theorem Translate_fault_order this virtAddr pgTable pgSize s tbl :
  machine_ok →
  heap s !! pageTable this = Some tbl →
  pgSize ≤ Z.of_nat (length tbl) →
  let vpn := to_uint virtAddr / PageSize in
  let offset := to_uint virtAddr mod PageSize in
  let r := Translate this virtAddr pgTable pgSize s in
  (Z.land virtAddr 3 ≠ 0 → r = Done (AddressErrorException, None, s)) ∧
  (Z.land virtAddr 3 = 0 → pgSize ≤ vpn →
     r = Done (AddressErrorException, None, s)) ∧
  (Z.land virtAddr 3 = 0 → vpn < pgSize →
     ∃ entry, tbl !! Z.to_nat vpn = Some entry ∧
       (valid entry = false → r = Done (PageFaultException, None, s)) ∧
       (valid entry = true → NumPhysPages ≤ to_uint (physicalPage entry) →
          r = Done (BusErrorException, None, s)) ∧
       (valid entry = true → to_uint (physicalPage entry) < NumPhysPages →
          r = Done (NoException,
                    Some (to_uint (physicalPage entry) * PageSize + offset),
                    mark_used this vpn entry tbl s) ∧
          ∃ s' tbl' entry',
            r = Done (NoException,
                      Some (to_uint (physicalPage entry) * PageSize + offset),
                      s') ∧
            (* the entry is back in the object's table with its use bit true *)
            heap s' !! pageTable this = Some tbl' ∧
            tbl' !! Z.to_nat vpn = Some entry' ∧
            use entry' = true ∧
            virtualPage entry' = virtualPage entry ∧
            physicalPage entry' = physicalPage entry ∧
            valid entry' = valid entry ∧
            readOnly entry' = readOnly entry ∧
            dirty entry' = dirty entry ∧
            (* and that is all that has changed *)
            length tbl' = length tbl ∧
            (∀ i, i ≠ Z.to_nat vpn → tbl' !! i = tbl !! i) ∧
            (∀ p, p ≠ pageTable this → heap s' !! p = heap s !! p) ∧
            totalPagesCount s' = totalPagesCount s ∧
            mainMemory s' = mainMemory s ∧
            registers s' = registers s)).
Proof.
  intros Hok Htbl Hsize vpn offset r.
  split; [apply Translate_misaligned|].
  split; [apply Translate_out_of_range|].
  intros Hal Hvpn.
  assert (0 ≤ vpn) as Hlo by (apply vpn_nonneg, Hok).
  destruct (lookup_lt_is_Some_2 tbl (Z.to_nat vpn)) as [entry Hentry]; [lia|].
  exists entry. split; [done|].
  unfold r. rewrite (Translate_entry _ _ _ _ _ tbl entry) by done.
  split; [by intros ->|].
  split; intros Hv Hpf; rewrite Hv; simpl.
  - destruct (Z.geb_spec (to_uint (physicalPage entry)) NumPhysPages); [done|lia].
  - destruct (Z.geb_spec (to_uint (physicalPage entry)) NumPhysPages); [lia|].
    destruct (physAddr_in_memory virtAddr (to_uint (physicalPage entry)))
      as (-> & H0 & H1 & ->); [done..| |].
    { split; [apply to_uint_range|done]. }
    fold offset.
    destruct (Z.geb_spec (to_uint (physicalPage entry) * PageSize + offset) 0);
      [|lia].
    destruct (Z.leb_spec (to_uint (physicalPage entry) * PageSize + offset + 4)
                MemorySize); [|lia].
    split; [reflexivity|].
    exists (mark_used this vpn entry tbl s),
           (<[Z.to_nat vpn := set_use entry]> tbl), (set_use entry).
    split; [reflexivity|]. simpl.
    split; [apply lookup_insert_eq|].
    split; [apply list_lookup_insert_eq; by eapply lookup_lt_Some|].
    repeat split; try done.
    + apply length_insert.
    + intros i Hi. by apply list_lookup_insert_ne.
    + intros p Hp. by apply lookup_insert_ne.
Qed.

(** C7: a call that returns a fault changes nothing: the state afterwards,
    page tables included, is the state before, and no address is written.
    A call that returns [NoException] changes one thing: in the table it
    consulted, the entry it consulted has its use bit set to true, its
    other fields being what they were. *)
Theorem Translate_frame this virtAddr pgTable pgSize s exc written s' :
  Translate this virtAddr pgTable pgSize s = Done (exc, written, s') →
  (exc ≠ NoException → s' = s ∧ written = None) ∧
  (exc = NoException →
     ∃ tbl entry,
       let vpn := to_uint virtAddr / PageSize in
       heap s !! pageTable this = Some tbl ∧
       tbl !! Z.to_nat vpn = Some entry ∧
       s' = mark_used this vpn entry tbl s ∧
       (* spelled out: nothing but that one bit moved *)
       totalPagesCount s' = totalPagesCount s ∧
       mainMemory s' = mainMemory s ∧
       registers s' = registers s ∧
       (∀ p, p ≠ pageTable this → heap s' !! p = heap s !! p) ∧
       (∃ tbl', heap s' !! pageTable this = Some tbl' ∧
          length tbl' = length tbl ∧
          (∀ i, i ≠ Z.to_nat vpn → tbl' !! i = tbl !! i) ∧
          tbl' !! Z.to_nat vpn = Some (set_use entry) ∧
          ∃ entry', tbl' !! Z.to_nat vpn = Some entry' ∧
            use entry' = true ∧
            virtualPage entry' = virtualPage entry ∧
            physicalPage entry' = physicalPage entry ∧
            valid entry' = valid entry ∧
            readOnly entry' = readOnly entry ∧
            dirty entry' = dirty entry)).
Proof.
  intros H. apply Translate_inv in H as [(Hexc & -> & ->)|H].
  - split; [done|]. intros ->. done.
  - destruct H as (tbl & entry & -> & Hal & Hvpn & Htbl & Hentry & Hv & Hpf & -> & ->).
    split; [done|]. intros _. exists tbl, entry. simpl.
    repeat split; try done.
    + intros p Hp. by rewrite lookup_insert_ne.
    + eexists. split; [apply lookup_insert_eq|].
      split; [apply length_insert|].
      split; [intros i Hi; by apply list_lookup_insert_ne|].
      assert (<[Z.to_nat (to_uint virtAddr / PageSize) := set_use entry]> tbl
              !! Z.to_nat (to_uint virtAddr / PageSize)
              = Some (set_use entry)) as Hstored
        by (apply list_lookup_insert_eq; by eapply lookup_lt_Some).
      split; [done|]. by exists (set_use entry).
Qed.

(** C8: calling [Translate] a second time, right after a first call and on
    the state that call left, returns the same outcome and writes the same
    physical address; the use bit the first call set changes neither (and
    the second call leaves the state as it found it). *)
Theorem Translate_twice this virtAddr pgTable pgSize s exc written s' :
  Translate this virtAddr pgTable pgSize s = Done (exc, written, s') →
  Translate this virtAddr pgTable pgSize s' = Done (exc, written, s').
Proof.
  intros H. pose proof H as Hfirst.
  apply Translate_inv in H as [(Hexc & -> & ->)|H]; [done|].
  destruct H as (tbl & entry & -> & Hal & Hvpn & Htbl & Hentry & Hv & Hpf & -> & ->).
  assert (Z.to_nat (to_uint virtAddr / PageSize) < length tbl)%nat as Hlen
    by (by eapply lookup_lt_Some).
  rewrite (Translate_entry _ _ _ _ _
             (<[Z.to_nat (to_uint virtAddr / PageSize) := set_use entry]> tbl)
             (set_use entry)); try done.
  - simpl. rewrite Hv. simpl.
    rewrite (Translate_entry _ _ _ _ _ tbl entry) in Hfirst by done.
    rewrite Hv in Hfirst. simpl in Hfirst.
    destruct (to_uint (physicalPage entry) >=? NumPhysPages); [done|].
    match goal with |- context [ASSERT ?b] => destruct b end; simpl; [|done].
    simpl in Hfirst. unfold set_heap. simpl.
    rewrite insert_insert_eq, list_insert_insert_eq.
    reflexivity.
  - simpl. apply lookup_insert_eq.
  - by apply list_lookup_insert_eq.
Qed.

(** C10: on a machine whose pages hold whole words and whose memory is
    [NumPhysPages] pages of [PageSize] bytes, the assertion on the address
    never fails, and whenever [Translate] returns [NoException] it has
    written an address [physAddr] with [0 ≤ physAddr] and
    [physAddr + 4 ≤ MemorySize]. *)
Theorem Translate_physAddr_bounds this virtAddr pgTable pgSize s :
  machine_ok →
  Translate this virtAddr pgTable pgSize s ≠ Abort ∧
  ∀ written s',
    Translate this virtAddr pgTable pgSize s = Done (NoException, written, s') →
    ∃ physAddr, written = Some physAddr ∧
      0 ≤ physAddr ∧ physAddr + 4 ≤ MemorySize.
Proof.
  intros Hok. split.
  - unfold Nachos.Translate.
    destruct (Z.eqb_spec (Z.land virtAddr 3) 0) as [Hal|]; simpl; [|done].
    destruct (to_uint virtAddr / PageSize >=? pgSize); [done|].
    unfold table_at, entry_at.
    destruct (heap s !! pageTable this) as [tbl|]; simpl; [|done].
    destruct (to_uint virtAddr / PageSize <? 0); [done|].
    destruct (tbl !! _) as [entry|]; simpl; [|done].
    destruct (valid entry); simpl; [|done].
    destruct (Z.geb_spec (to_uint (physicalPage entry)) NumPhysPages) as [|Hpf];
      [done|].
    destruct (physAddr_in_memory virtAddr (to_uint (physicalPage entry)))
      as (-> & H0 & H1 & ->); [done..| |].
    { split; [apply to_uint_range|done]. }
    match goal with |- context [ASSERT (?a && ?b)] =>
      destruct (Z.geb_spec (to_uint (physicalPage entry) * PageSize
                            + to_uint virtAddr `mod` PageSize) 0);
      [|lia];
      destruct (Z.leb_spec (to_uint (physicalPage entry) * PageSize
                            + to_uint virtAddr `mod` PageSize + 4) MemorySize);
      [|lia]
    end.
    done.
  - intros written s' H.
    apply Translate_inv in H as [(Hexc & _)|H]; [done|].
    destruct H as (tbl & entry & _ & Hal & Hvpn & Htbl & Hentry & Hv & Hpf & -> & _).
    destruct (physAddr_in_memory virtAddr (to_uint (physicalPage entry)))
      as (-> & H0 & H1 & _); [done..| |].
    { split; [apply to_uint_range|done]. }
    eexists. split; [reflexivity|]. lia.
Qed.

End TranslateProperties.

(** ** Sequencing *)

Lemma bind_Done {A B} (m : result A) (f : A → result B) b :
  (m ≫= f) = Done b → ∃ a, m = Done a ∧ f a = Done b.
Proof. destruct m as [a| |]; simpl; [eauto|done..]. Qed.

Lemma ASSERT_Done b u : ASSERT b = Done u → b = true.
Proof. by destruct b. Qed.

(** ** Page tables up to use bits *)

Lemma same_mappings_refl s : same_mappings s s.
Proof. split; [done|]. eauto. Qed.

Lemma same_mappings_trans s1 s2 s3 :
  same_mappings s1 s2 → same_mappings s2 s3 → same_mappings s1 s3.
Proof.
  intros [Hc1 H1] [Hc2 H2]. split; [congruence|].
  intros p tbl Hp.
  destruct (H1 p tbl Hp) as (tbl2 & Hp2 & E2).
  destruct (H2 p tbl2 Hp2) as (tbl3 & Hp3 & E3).
  exists tbl3. split; [done|congruence].
Qed.

Lemma same_mappings_set_mainMemory s m : same_mappings s (set_mainMemory m s).
Proof. split; [done|]. eauto. Qed.

Lemma set_use_idemp e : set_use (set_use e) = set_use e.
Proof. reflexivity. Qed.

Lemma fmap_set_use_insert (tbl : list TranslationEntry) i e :
  tbl !! i = Some e →
  set_use <$> <[i := set_use e]> tbl = set_use <$> tbl.
Proof.
  intros H. rewrite list_fmap_insert, set_use_idemp.
  apply list_insert_id. by rewrite list_lookup_fmap, H.
Qed.

(** The fields other than [use] can be read off the marked entry. *)
Lemma set_use_fields e e' :
  set_use e = set_use e' →
  virtualPage e = virtualPage e' ∧ physicalPage e = physicalPage e' ∧
  valid e = valid e' ∧ readOnly e = readOnly e' ∧ dirty e = dirty e'.
Proof. destruct e, e'. unfold set_use. simpl. by intros [= -> -> -> -> ->]. Qed.

Lemma physicalPage_set_use (tbl : list TranslationEntry) :
  physicalPage <$> (set_use <$> tbl) = physicalPage <$> tbl.
Proof. rewrite <- list_fmap_compose. by apply list_fmap_ext. Qed.

(** ** The filling loop *)

Lemma length_fill_pageTable n c : length (fill_pageTable n c) = Z.to_nat n.
Proof. unfold fill_pageTable. by rewrite length_fmap, length_seqZ. Qed.

Lemma lookup_fill_pageTable n c i :
  0 ≤ i < n → fill_pageTable n c !! Z.to_nat i = Some (new_entry c i).
Proof.
  intros H. unfold fill_pageTable.
  rewrite list_lookup_fmap, lookup_seqZ_lt by lia.
  simpl. do 2 f_equal. lia.
Qed.

Lemma physicalPage_fill_pageTable n c :
  0 ≤ c → c + n ≤ 2 ^ 32 →
  physicalPage <$> fill_pageTable n c = seqZ c n.
Proof.
  intros Hc Hn. unfold fill_pageTable.
  rewrite <- list_fmap_compose.
  apply list_eq. intros i.
  rewrite list_lookup_fmap.
  destruct (decide (Z.of_nat i < n)) as [Hi|Hi].
  - rewrite !lookup_seqZ_lt by done. simpl.
    rewrite to_uint_small by lia. f_equal. lia.
  - by rewrite !lookup_seqZ_ge by lia.
Qed.

Lemma new_loc_fresh s : heap s !! new_loc s = None.
Proof. apply not_elem_of_dom. unfold new_loc. apply is_fresh. Qed.

(** ** The constructors *)

Section ConstructorProperties.

Variables PageSize NumPhysPages MemorySize : Z.
Variables (UserStackSize NOFFMAGIC : Z) (WordToHost : Z → Z).
Variables (sizeof_noffH : Z) (cast_noffH : list byte → NoffHeader).

Local Abbreviation machine_ok := (machine_ok PageSize NumPhysPages MemorySize).
Local Abbreviation Translate := (Translate PageSize NumPhysPages MemorySize).
Local Abbreviation setup_pageTable := (setup_pageTable NumPhysPages).
Local Abbreviation read_header :=
  (read_header NOFFMAGIC WordToHost sizeof_noffH cast_noffH).
Local Abbreviation image_size := (image_size UserStackSize).
Local Abbreviation image_numPages := (image_numPages PageSize UserStackSize).
Local Abbreviation zero_memory := (zero_memory PageSize).
Local Abbreviation load_segment := (load_segment PageSize NumPhysPages MemorySize).
Local Abbreviation load_segments := (load_segments PageSize NumPhysPages MemorySize).
Local Abbreviation AddrSpace_image :=
  (AddrSpace_image PageSize NumPhysPages MemorySize UserStackSize NOFFMAGIC
                   WordToHost sizeof_noffH cast_noffH).
Local Abbreviation copy_parent := (copy_parent PageSize).
Local Abbreviation AddrSpace_fork := (AddrSpace_fork PageSize NumPhysPages).
Local Abbreviation constructed := (constructed NumPhysPages).

Implicit Types (this : AddrSpace) (s : State) (noffH : NoffHeader).

Lemma Translate_same_mappings this virtAddr pgTable pgSize s exc written s' :
  Translate this virtAddr pgTable pgSize s = Done (exc, written, s') →
  same_mappings s s' ∧ mainMemory s' = mainMemory s.
Proof.
  intros H. apply Translate_inv in H as [(_ & _ & ->)|H].
  { split; [apply same_mappings_refl|done]. }
  destruct H as (tbl & entry & _ & _ & _ & Htbl & Hentry & _ & _ & _ & ->).
  split; [|done]. split; [done|].
  intros p tbl0 Hp. simpl.
  destruct (decide (p = pageTable this)) as [->|Hne].
  - rewrite lookup_insert_eq. eexists. split; [done|].
    assert (tbl0 = tbl) as -> by congruence.
    by apply fmap_set_use_insert.
  - rewrite lookup_insert_ne by done. eauto.
Qed.

Lemma load_segment_same_mappings this executable seg physicalAddress s r s' :
  load_segment this executable seg physicalAddress s = Done (r, s') →
  same_mappings s s'.
Proof.
  unfold Nachos.load_segment.
  destruct (size seg >? 0); [|intros [= _ <-]; apply same_mappings_refl].
  intros H. apply bind_Done in H as ([[exc written] s1] & HT & H).
  apply Translate_same_mappings in HT as [HT _].
  apply bind_Done in H as (a & _ & H).
  apply bind_Done in H as (m & _ & [= _ <-]).
  eapply same_mappings_trans; [done|apply same_mappings_set_mainMemory].
Qed.

Lemma load_segments_same_mappings this executable noffH s s' :
  load_segments this executable noffH s = Done s' → same_mappings s s'.
Proof.
  unfold Nachos.load_segments. intros H.
  apply bind_Done in H as ([pa s1] & H1 & H).
  apply bind_Done in H as ([pa' s2] & H2 & [= <-]).
  eapply same_mappings_trans; by eapply load_segment_same_mappings.
Qed.

Lemma zero_memory_same_mappings s s' :
  zero_memory s = Done s' → same_mappings s s'.
Proof.
  unfold Nachos.zero_memory. intros H.
  apply bind_Done in H as (m & _ & [= <-]).
  apply same_mappings_set_mainMemory.
Qed.

(** On a sane machine a frame count never wraps. *)
Lemma frames_fit : machine_ok → NumPhysPages * 4 ≤ INT_MAX.
Proof.
  intros (Hpos & Hps & -> & Hmax). unfold INT_MAX in *.
  apply Z.mod_divide in Hps as [q ->]; [|lia].
  destruct (Z.le_gt_cases NumPhysPages 0); [lia|].
  assert (1 ≤ q) by lia. nia.
Qed.

Lemma setup_pageTable_inv n s this s1 :
  machine_ok → 0 ≤ totalPagesCount s ≤ NumPhysPages → 0 ≤ n ≤ NumPhysPages →
  setup_pageTable n s = Done (this, s1) →
  this = {| pageTable := new_loc s; numPages := n |} ∧
  s1 = set_totalPagesCount (totalPagesCount s + n)
         (set_heap (<[new_loc s := fill_pageTable n (totalPagesCount s)]> (heap s)) s) ∧
  totalPagesCount s + n ≤ NumPhysPages.
Proof.
  intros Hok Hc Hn. pose proof (frames_fit Hok) as Hfit. unfold INT_MAX in Hfit.
  unfold Nachos.setup_pageTable. simpl.
  rewrite to_int_small by lia.
  destruct (Z.leb_spec (totalPagesCount s + n) NumPhysPages); simpl; [|done].
  by intros [= <- <-].
Qed.

Lemma constructed_intro s this s1 s' :
  machine_ok → 0 ≤ totalPagesCount s ≤ NumPhysPages →
  0 ≤ numPages this ≤ NumPhysPages →
  setup_pageTable (numPages this) s = Done (this, s1) →
  same_mappings s1 s' →
  constructed s this s'.
Proof.
  intros Hok Hc Hn Hsetup [Hcount Hsame].
  pose proof (frames_fit Hok) as Hfit. unfold INT_MAX in Hfit.
  destruct (setup_pageTable_inv _ _ _ _ Hok Hc Hn Hsetup) as (Hthis & -> & Hsum).
  set (c := totalPagesCount s) in *. set (n := numPages this) in *.
  assert (pageTable this = new_loc s) as Hp by (by rewrite Hthis).
  assert (heap (set_totalPagesCount (c + n)
            (set_heap (<[new_loc s := fill_pageTable n c]> (heap s)) s))
          !! pageTable this = Some (fill_pageTable n c)) as Hfill.
  { simpl. rewrite Hp. apply lookup_insert_eq. }
  destruct (Hsame _ _ Hfill) as (tbl & Htbl & Heq).
  assert (physicalPage <$> tbl = seqZ c n) as Hframes.
  { rewrite <- physicalPage_set_use, Heq, physicalPage_set_use.
    apply physicalPage_fill_pageTable; lia. }
  assert (length tbl = Z.to_nat n) as Hlen.
  { rewrite <- (length_fmap set_use), Heq, length_fmap.
    apply length_fill_pageTable. }
  unfold Nachos.constructed. fold c n.
  split; [lia|]. split; [rewrite Hp; apply new_loc_fresh|].
  split; [eexists; split; [done|]; split; [done|done]|].
  split; [rewrite length_fill_pageTable; lia|].
  split.
  { intros i Hi. rewrite lookup_fill_pageTable by done.
    unfold new_entry. by rewrite to_uint_small by lia. }
  split; [by rewrite Hcount|].
  exists tbl. split; [done|]. split; [lia|].
  split.
  { intros i Hi.
    destruct (lookup_lt_is_Some_2 tbl (Z.to_nat i)) as [e He]; [lia|].
    exists e. split; [done|].
    assert (set_use e = set_use (new_entry c i)) as Hfields.
    { apply (f_equal (λ l, l !! Z.to_nat i)) in Heq.
      rewrite !list_lookup_fmap, He, lookup_fill_pageTable in Heq by done.
      simpl in Heq. congruence. }
    apply set_use_fields in Hfields as (-> & -> & -> & -> & ->). simpl.
    by rewrite to_uint_small by lia. }
  split; [done|].
  split; [rewrite Hframes; apply NoDup_seqZ|].
  split.
  { intros e He. apply (list_elem_of_fmap_2 physicalPage) in He.
    rewrite Hframes in He. apply elem_of_seqZ in He. lia. }
  intros Hc9 Hn3. rewrite Hframes, Hcount, Hc9, Hn3. done.
Qed.

Lemma divRoundUp_nonneg n : 0 ≤ n → 0 < PageSize → 0 ≤ divRoundUp n PageSize.
Proof.
  intros Hn Hpos. unfold divRoundUp.
  pose proof (Z.div_pos n PageSize Hn Hpos).
  destruct (n `mod` PageSize >? 0); lia.
Qed.

Lemma AddrSpace_image_inv executable s this s' :
  AddrSpace_image executable s = Done (this, s') →
  ∃ noffH s1 s2,
    read_header executable = Done noffH ∧
    numPages this = image_numPages noffH ∧
    image_numPages noffH ≤ NumPhysPages ∧
    setup_pageTable (image_numPages noffH) s = Done (this, s1) ∧
    zero_memory s1 = Done s2 ∧
    load_segments this executable noffH s2 = Done s'.
Proof.
  unfold Nachos.AddrSpace_image. intros H.
  apply bind_Done in H as (noffH & Hhdr & H).
  apply bind_Done in H as (u & Hn%ASSERT_Done & H).
  apply bind_Done in H as ([this1 s1] & Hsetup & H).
  apply bind_Done in H as (s2 & Hzero & H).
  apply bind_Done in H as (s3 & Hload & [= <- <-]).
  exists noffH, s1, s2. repeat split; try done; [|lia].
  unfold Nachos.setup_pageTable in Hsetup.
  apply bind_Done in Hsetup as (u' & _ & [= <- _]). done.
Qed.

Lemma AddrSpace_fork_inv numParentPages parentStartPhysPage s this s' :
  AddrSpace_fork numParentPages parentStartPhysPage s = Done (this, s') →
  ∃ s1,
    numPages this = numParentPages ∧
    numParentPages ≤ NumPhysPages ∧
    setup_pageTable numParentPages s = Done (this, s1) ∧
    copy_parent numParentPages parentStartPhysPage
      (to_uint (totalPagesCount s * PageSize)) s1 = Done s'.
Proof.
  unfold Nachos.AddrSpace_fork. intros H.
  apply bind_Done in H as (u & Hn%ASSERT_Done & H).
  apply bind_Done in H as ([this1 s1] & Hsetup & H).
  apply bind_Done in H as (s2 & Hcopy & [= <- <-]).
  exists s1. repeat split; try done; [|lia].
  unfold Nachos.setup_pageTable in Hsetup.
  apply bind_Done in Hsetup as (u' & _ & [= <- _]). done.
Qed.

Lemma copy_parent_same_mappings numPages parentStartPhysPage k s s' :
  copy_parent numPages parentStartPhysPage k s = Done s' → same_mappings s s'.
Proof.
  unfold Nachos.copy_parent. intros H.
  apply bind_Done in H as (m & _ & [= <-]).
  apply same_mappings_set_mainMemory.
Qed.


(** [ceil_div] is the ceiling of the quotient, and the rounding macro
    computes it. *)
Lemma ceil_div_spec a b k :
  0 < b → k = ceil_div a b ↔ (k - 1) * b < a ≤ k * b.
Proof.
  intros Hb. unfold ceil_div.
  pose proof (Z.div_mod (a + b - 1) b) as Hdm.
  pose proof (Z.mod_pos_bound (a + b - 1) b Hb) as Hm.
  split; [intros ->; nia|].
  intros [Hlo Hhi].
  apply Z.div_unique with (r := a + b - 1 - b * k); lia.
Qed.

Lemma divRoundUp_ceil n d : 0 < d → divRoundUp n d = ceil_div n d.
Proof.
  intros Hd. apply ceil_div_spec; [done|]. unfold divRoundUp.
  pose proof (Z.div_mod n d) as Hdm.
  pose proof (Z.mod_pos_bound n d Hd) as Hm.
  destruct (Z.gtb_spec (n `mod` d) 0); nia.
Qed.

Lemma setup_pageTable_heap n s this s1 :
  setup_pageTable n s = Done (this, s1) →
  this = {| pageTable := new_loc s; numPages := n |} ∧
  heap s1 = <[new_loc s := fill_pageTable n (totalPagesCount s)]> (heap s).
Proof.
  unfold Nachos.setup_pageTable. intros H.
  apply bind_Done in H as (u & _ & [= <- <-]). done.
Qed.

(** C6: the page table that construction from an image creates has
    [numPages] entries, and for a valid image (one whose three segment sizes
    and the stack reservation add up to an unsigned 32-bit number)
    [numPages] is the ceiling of (code size + initialised-data size +
    uninitialised-data size + [UserStackSize]) / [PageSize]. With 128-byte
    pages, a 1024-byte stack and only a 128-byte code segment that is 9. *)
Theorem image_numPages_is_ceiling executable s this s' :
  0 < PageSize →
  AddrSpace_image executable s = Done (this, s') →
  ∃ noffH tbl,
    read_header executable = Done noffH ∧
    heap s' !! pageTable this = Some tbl ∧
    Z.of_nat (length tbl) = numPages this ∧
    let total := size (code noffH) + size (initData noffH)
                 + size (uninitData noffH) + UserStackSize in
    (0 ≤ total < 2 ^ 32 →
       numPages this = ceil_div total PageSize ∧
       (numPages this - 1) * PageSize < total ≤ numPages this * PageSize) ∧
    (PageSize = 128 → UserStackSize = 1024 →
     size (code noffH) = 128 → size (initData noffH) = 0 →
     size (uninitData noffH) = 0 →
       numPages this = 9).
Proof.
  intros Hpos H.
  apply AddrSpace_image_inv in H
    as (noffH & s1 & s2 & Hhdr & Hn & Hle & Hsetup & Hzero & Hload).
  assert (same_mappings s1 s') as [_ Hsame].
  { eapply same_mappings_trans;
      [by eapply zero_memory_same_mappings
      |by eapply load_segments_same_mappings]. }
  apply setup_pageTable_heap in Hsetup as [Hthis Hheap].
  destruct (Hsame (pageTable this)
              (fill_pageTable (image_numPages noffH) (totalPagesCount s)))
    as (tbl & Htbl & Heq).
  { rewrite Hheap, Hthis. apply lookup_insert_eq. }
  assert (0 ≤ image_numPages noffH) as Hnn.
  { apply divRoundUp_nonneg; [apply to_uint_range|done]. }
  exists noffH, tbl. split; [done|]. split; [done|].
  split.
  { rewrite <- (length_fmap set_use), Heq, length_fmap, length_fill_pageTable.
    lia. }
  simpl. split.
  - intros Hvalid.
    assert (numPages this
            = ceil_div (size (code noffH) + size (initData noffH)
                        + size (uninitData noffH) + UserStackSize) PageSize)
      as Hceil.
    { rewrite Hn. unfold Nachos.image_numPages, Nachos.image_size.
      rewrite to_uint_small by done. by apply divRoundUp_ceil. }
    split; [done|]. by apply ceil_div_spec.
  - intros -> -> Hc Hi Hu. rewrite Hn.
    unfold Nachos.image_numPages, Nachos.image_size.
    rewrite Hc, Hi, Hu. reflexivity.
Qed.

(** The zero-fill starts at the bottom of memory and runs up to the end of
    the frames committed so far. *)
Lemma zero_memory_spec s s' :
  zero_memory s = Done s' →
  let size := to_uint (totalPagesCount s * PageSize) in
  size ≤ Z.of_nat (length (mainMemory s)) ∧
  s' = set_mainMemory
         (replicate (Z.to_nat size) x00 ++ drop (Z.to_nat size) (mainMemory s)) s.
Proof.
  unfold Nachos.zero_memory, bzero. simpl.
  destruct (Z.leb_spec (to_uint (totalPagesCount s * PageSize))
              (Z.of_nat (length (mainMemory s)))); simpl; [|done].
  by intros [= <-].
Qed.

Lemma zero_memory_zeroes s s' i :
  zero_memory s = Done s' →
  0 ≤ i < to_uint (totalPagesCount s * PageSize) →
  mainMemory s' !! Z.to_nat i = Some x00.
Proof.
  intros H Hi. apply zero_memory_spec in H as [Hlen ->]. simpl.
  rewrite lookup_app_l by (rewrite length_replicate; lia).
  apply lookup_replicate_2. lia.
Qed.

(** X14: the zero-fill of a construction from an image clears memory from
    byte 0 on: once it is done, every byte below the end of the new frames
    is zero, the frames of earlier address spaces included. *)
Lemma image_zero_fill_from_zero executable s this s' :
  machine_ok → 0 ≤ totalPagesCount s ≤ NumPhysPages →
  AddrSpace_image executable s = Done (this, s') →
  ∃ noffH s1 s2,
    setup_pageTable (numPages this) s = Done (this, s1) ∧
    zero_memory s1 = Done s2 ∧
    load_segments this executable noffH s2 = Done s' ∧
    ∀ i, 0 ≤ i < (totalPagesCount s + numPages this) * PageSize →
      mainMemory s2 !! Z.to_nat i = Some x00.
Proof.
  intros Hok Hc H.
  apply AddrSpace_image_inv in H
    as (noffH & s1 & s2 & _ & Hn & Hle & Hsetup & Hzero & Hload).
  rewrite <- Hn in Hsetup, Hle.
  assert (0 ≤ numPages this) as Hnn.
  { rewrite Hn. apply divRoundUp_nonneg; [apply to_uint_range|apply Hok]. }
  exists noffH, s1, s2. repeat split; try done.
  intros i Hi. apply (zero_memory_zeroes s1); [done|].
  destruct (setup_pageTable_inv _ _ _ _ Hok Hc (conj Hnn Hle) Hsetup)
    as (_ & -> & Hsum).
  simpl. destruct Hok as (Hpos & _ & Hmem & Hmax). unfold INT_MAX in Hmax.
  rewrite to_uint_small; [done|]. nia.
Qed.

(** The frame counter stays between 0 and [NumPhysPages]. *)
Lemma setup_pageTable_counter n s this s1 s' :
  machine_ok → 0 ≤ totalPagesCount s ≤ NumPhysPages → 0 ≤ n ≤ NumPhysPages →
  setup_pageTable n s = Done (this, s1) → same_mappings s1 s' →
  0 ≤ totalPagesCount s' ≤ NumPhysPages.
Proof.
  intros Hok Hc Hn Hsetup [-> _].
  destruct (setup_pageTable_inv _ _ _ _ Hok Hc Hn Hsetup) as (_ & -> & Hsum).
  simpl. lia.
Qed.

(** X13: both constructors keep the frame counter between 0 and
    [NumPhysPages]. *)
Lemma constructors_keep_counter_bound s :
  machine_ok → 0 ≤ totalPagesCount s ≤ NumPhysPages →
  (∀ executable this s',
     AddrSpace_image executable s = Done (this, s') →
     0 ≤ totalPagesCount s' ≤ NumPhysPages) ∧
  (∀ numParentPages parentStartPhysPage this s',
     0 ≤ numParentPages →
     AddrSpace_fork numParentPages parentStartPhysPage s = Done (this, s') →
     0 ≤ totalPagesCount s' ≤ NumPhysPages).
Proof.
  intros Hok Hc. split.
  - intros executable this s' H.
    apply AddrSpace_image_inv in H
      as (noffH & s1 & s2 & _ & Hn & Hle & Hsetup & Hzero & Hload).
    eapply setup_pageTable_counter; [done..| |done|].
    + split; [|done].
      apply divRoundUp_nonneg; [apply to_uint_range|apply Hok].
    + eapply same_mappings_trans;
        [by eapply zero_memory_same_mappings
        |by eapply load_segments_same_mappings].
  - intros numParentPages parentStartPhysPage this s' Hpos H.
    apply AddrSpace_fork_inv in H as (s1 & Hn & Hle & Hsetup & Hcopy).
    eapply setup_pageTable_counter; [done..| |done|].
    + lia.
    + by eapply copy_parent_same_mappings.
Qed.

(** *** The copy loop of fork *)

(** With the source range below the destination range, [n] iterations copy
    [n] bytes from [i] on to [k] on and touch nothing else. *)
Lemma copy_loop_spec n : ∀ i k (m : list byte),
  0 ≤ i → i + Z.of_nat n ≤ k →
  k + Z.of_nat n ≤ Z.of_nat (length m) → k + Z.of_nat n < 2 ^ 32 →
  ∃ m', copy_loop n i k (i + Z.of_nat n) m = Done m' ∧
    length m' = length m ∧
    ∀ j : nat, m' !! j
               = if decide (k ≤ Z.of_nat j < k + Z.of_nat n)
                 then m !! Z.to_nat (i + (Z.of_nat j - k)) else m !! j.
Proof.
  induction n as [|n IH]; intros i k m Hi Hik Hlen Hmax.
  - exists m. split; [done|]. split; [done|].
    intros j. case_decide; [lia|done].
  - simpl copy_loop.
    destruct (Z.ltb_spec i (i + Z.of_nat (S n))); [|lia].
    destruct (lookup_lt_is_Some_2 m (Z.to_nat i)) as [b Hb]; [lia|].
    rewrite Hb. simpl.
    destruct (Z.ltb_spec k (Z.of_nat (length m))); [|lia].
    rewrite !to_uint_small by lia.
    replace (i + Z.of_nat (S n)) with (i + 1 + Z.of_nat n) by lia.
    destruct (IH (i + 1) (k + 1) (<[Z.to_nat k := b]> m))
      as (m' & Hrun & Hl & Hm'); [lia..|rewrite length_insert; lia|lia|].
    exists m'. split; [done|].
    split; [by rewrite Hl, length_insert|].
    intros j. rewrite Hm'.
    repeat case_decide; try lia.
    + rewrite list_lookup_insert_ne by lia. f_equal. lia.
    + assert (j = Z.to_nat k) as -> by lia.
      rewrite list_lookup_insert_eq by lia.
      rewrite <- Hb. f_equal. lia.
    + by rewrite list_lookup_insert_ne by lia.
Qed.

(** How much fork copies: the loop runs from byte
    [parentStartPhysPage * PageSize] up to byte
    [parentStartPhysPage + numPages * PageSize], which is
    [numPages * PageSize - parentStartPhysPage * (PageSize - 1)] bytes, or
    none when that is negative. *)
Lemma fork_copies numParentPages parentStartPhysPage s :
  machine_ok → Z.of_nat (length (mainMemory s)) = MemorySize →
  0 ≤ parentStartPhysPage → 0 ≤ numParentPages →
  parentStartPhysPage + numParentPages ≤ totalPagesCount s →
  totalPagesCount s + numParentPages ≤ NumPhysPages →
  let copied :=
    Z.max 0 (numParentPages * PageSize
             - parentStartPhysPage * (PageSize - 1)) in
  let from := parentStartPhysPage * PageSize in
  let to := totalPagesCount s * PageSize in
  ∃ this s',
    AddrSpace_fork numParentPages parentStartPhysPage s = Done (this, s') ∧
    ∀ j : nat, mainMemory s' !! j
               = if decide (to ≤ Z.of_nat j < to + copied)
                 then mainMemory s !! Z.to_nat (from + (Z.of_nat j - to))
                 else mainMemory s !! j.
Proof.
  intros Hok Hlen Hb Hp Hparent Hroom copied from to.
  pose proof (frames_fit Hok) as Hfit.
  destruct Hok as (Hpos & Hps & Hmem & Hmax). unfold INT_MAX in *.
  assert (4 ≤ PageSize) as Hps4.
  { apply Z.mod_divide in Hps as [q Hq]; lia. }
  unfold Nachos.AddrSpace_fork.
  destruct (Z.leb_spec numParentPages NumPhysPages); [|lia]. simpl.
  unfold Nachos.setup_pageTable. simpl.
  rewrite to_int_small by lia.
  destruct (Z.leb_spec (totalPagesCount s + numParentPages) NumPhysPages);
    [|lia]. simpl.
  unfold Nachos.copy_parent. simpl.
  assert (to ≤ MemorySize) as Hto by (unfold to; nia).
  rewrite !to_uint_small by (fold to from; nia).
  fold from to.
  destruct (Z.le_gt_cases (parentStartPhysPage + numParentPages * PageSize) from)
    as [Hnone|Hsome].
  - (* the end is not past the start: nothing is copied *)
    replace (Z.to_nat (parentStartPhysPage + numParentPages * PageSize - from))
      with 0%nat by lia.
    simpl. eexists _, _. split; [done|]. simpl.
    intros j. case_decide; [|done]. unfold copied, from in *. lia.
  - assert (copied = parentStartPhysPage + numParentPages * PageSize - from)
      as Hcopied by (unfold copied, from in *; lia).
    rewrite <- Hcopied.
    replace (parentStartPhysPage + numParentPages * PageSize)
      with (from + Z.of_nat (Z.to_nat copied)) by lia.
    destruct (copy_loop_spec (Z.to_nat copied) from to (mainMemory s))
      as (m' & -> & _ & Hm'); [unfold from; nia|unfold to; nia|nia|nia|].
    simpl. eexists _, _. split; [done|]. simpl.
    intros j. rewrite Hm'. rewrite Z2Nat.id by lia. done.
Qed.

(** X16: a parent that does not start at frame 0 is copied short. The
    fork returns; of the [numPages * PageSize] bytes of the parent it copies
    the first [numPages * PageSize - parentStartPhysPage * (PageSize - 1)]
    (none when that is negative) to the start of the child's frames, and it
    leaves every other byte of memory, the rest of the child's frames
    included, as it was before the fork. *)
Lemma fork_copies_short numParentPages parentStartPhysPage s :
  machine_ok → Z.of_nat (length (mainMemory s)) = MemorySize →
  1 ≤ parentStartPhysPage → 1 ≤ numParentPages →
  parentStartPhysPage + numParentPages ≤ totalPagesCount s →
  totalPagesCount s + numParentPages ≤ NumPhysPages →
  let copied :=
    Z.max 0 (numParentPages * PageSize
             - parentStartPhysPage * (PageSize - 1)) in
  let from := parentStartPhysPage * PageSize in
  let to := totalPagesCount s * PageSize in
  copied < numParentPages * PageSize ∧
  ∃ this s',
    AddrSpace_fork numParentPages parentStartPhysPage s = Done (this, s') ∧
    (* the bytes that are copied *)
    (∀ j, 0 ≤ j < copied →
       mainMemory s' !! Z.to_nat (to + j) = mainMemory s !! Z.to_nat (from + j)) ∧
    (* the bytes that are not *)
    (∀ i : nat, ¬ (to ≤ Z.of_nat i < to + copied) →
       mainMemory s' !! i = mainMemory s !! i) ∧
    (∀ j, copied ≤ j < numParentPages * PageSize →
       mainMemory s' !! Z.to_nat (to + j) = mainMemory s !! Z.to_nat (to + j)) ∧
    mainMemory s' !! Z.to_nat (to + copied)
    = mainMemory s !! Z.to_nat (to + copied).
Proof.
  intros Hok Hlen Hb Hp Hparent Hroom copied from to.
  assert (4 ≤ PageSize) as Hps4.
  { destruct Hok as (Hpos & Hps & _). apply Z.mod_divide in Hps as [q Hq]; lia. }
  split; [unfold copied; nia|].
  destruct (fork_copies numParentPages parentStartPhysPage s)
    as (this & s' & Hrun & Hmem); [done|done|lia|lia|done|done|].
  fold to copied from in Hmem.
  assert (0 ≤ to) as Hto by (unfold to; nia).
  assert (0 ≤ copied) as Hcopied by (unfold copied; lia).
  exists this, s'. split; [done|].
  split.
  { intros j Hj. rewrite Hmem. case_decide; [f_equal; lia|lia]. }
  split.
  { intros i Hi. rewrite Hmem. by case_decide. }
  split.
  { intros j Hj. rewrite Hmem. case_decide; [lia|done]. }
  rewrite Hmem. case_decide; [lia|done].
Qed.

(** X15: a parent on the frames from 0 on is copied whole. The fork
    returns, and every byte of the child's frames is the byte the parent's
    frames held at the same offset. *)
Lemma fork_copies_whole numParentPages s :
  machine_ok → Z.of_nat (length (mainMemory s)) = MemorySize →
  0 ≤ numParentPages → numParentPages ≤ totalPagesCount s →
  totalPagesCount s + numParentPages ≤ NumPhysPages →
  ∃ this s',
    AddrSpace_fork numParentPages 0 s = Done (this, s') ∧
    ∀ j, 0 ≤ j < numParentPages * PageSize →
      mainMemory s' !! Z.to_nat (totalPagesCount s * PageSize + j)
      = mainMemory s !! Z.to_nat j.
Proof.
  intros Hok Hlen Hp Hparent Hroom.
  destruct (fork_copies numParentPages 0 s)
    as (this & s' & Hrun & Hmem); [done|done|lia|lia|lia|done|].
  exists this, s'. split; [done|].
  intros j Hj. rewrite Hmem.
  destruct Hok as (Hpos & _).
  assert (0 ≤ totalPagesCount s * PageSize) by nia.
  case_decide; [f_equal; lia|lia].
Qed.

End ConstructorProperties.

(** ** InitRegisters *)

Section RegisterProperties.

Variables PageSize NumTotalRegs PCReg NextPCReg StackReg : Z.

Local Abbreviation InitRegisters :=
  (InitRegisters PageSize NumTotalRegs PCReg NextPCReg StackReg).
Local Abbreviation register_layout_ok :=
  (register_layout_ok NumTotalRegs PCReg NextPCReg StackReg).

Implicit Types (this : AddrSpace) (s : State).

Lemma WriteRegister_Done num value s :
  0 ≤ num < Z.of_nat (length (registers s)) →
  WriteRegister num value s
  = Done (set_registers (<[Z.to_nat num := value]> (registers s)) s).
Proof.
  intros H. unfold WriteRegister.
  destruct (Z.leb_spec 0 num); [|lia].
  destruct (Z.ltb_spec num (Z.of_nat (length (registers s)))); [|lia].
  reflexivity.
Qed.

(** The zeroing loop, started at register [from] with [n] registers to go. *)
Lemma zero_loop n : ∀ from s,
  0 ≤ from → from + Z.of_nat n ≤ Z.of_nat (length (registers s)) →
  ∃ s', for_range n from (λ i, WriteRegister i 0) s = Done s' ∧
    s' = set_registers (registers s') s ∧
    length (registers s') = length (registers s) ∧
    ∀ i : nat, registers s' !! i
               = if decide (from ≤ Z.of_nat i < from + Z.of_nat n)
                 then Some 0 else registers s !! i.
Proof.
  induction n as [|n IH]; intros from s Hfrom Hlen; simpl.
  - exists s. split; [done|]. split; [by destruct s|]. split; [done|].
    intros i. case_decide; [lia|done].
  - rewrite WriteRegister_Done by lia. simpl.
    destruct (IH (from + 1)
                (set_registers (<[Z.to_nat from := 0]> (registers s)) s))
      as (s' & Hrun & Hs' & Hl & Hregs).
    { lia. } { simpl. rewrite length_insert. lia. }
    exists s'. split; [done|].
    split; [rewrite Hs' at 1; done|].
    split; [rewrite Hl; simpl; apply length_insert|].
    intros i. rewrite Hregs. simpl.
    repeat case_decide; try lia; try done.
    + assert (i = Z.to_nat from) as -> by lia.
      apply list_lookup_insert_eq. lia.
    + apply list_lookup_insert_ne. lia.
Qed.

(** C9: [InitRegisters] first writes 0 to every register, then 0 to the
    program counter, 4 to the next-program-counter and
    [numPages * PageSize - 16] to the stack pointer; every other register
    holds 0 afterwards and nothing but the registers has changed. For 9
    pages of 128 bytes the stack pointer is 1136. *)
Theorem InitRegisters_sets_registers this s :
  register_layout_ok →
  Z.of_nat (length (registers s)) = NumTotalRegs →
  0 ≤ numPages this * PageSize ≤ INT_MAX →
  ∃ s0 s',
    for_range (Z.to_nat NumTotalRegs) 0 (λ i, WriteRegister i 0) s = Done s0 ∧
    registers s0 = replicate (Z.to_nat NumTotalRegs) 0 ∧
    InitRegisters this s = Done s' ∧
    s' = set_registers (registers s') s ∧
    registers s' !! Z.to_nat PCReg = Some 0 ∧
    registers s' !! Z.to_nat NextPCReg = Some 4 ∧
    registers s' !! Z.to_nat StackReg = Some (numPages this * PageSize - 16) ∧
    (∀ r, 0 ≤ r < NumTotalRegs →
       r ≠ PCReg → r ≠ NextPCReg → r ≠ StackReg →
       registers s' !! Z.to_nat r = Some 0) ∧
    (numPages this = 9 → PageSize = 128 →
       registers s' !! Z.to_nat StackReg = Some 1136).
Proof.
  intros (HPC & HNext & HSP & Hne1 & Hne2 & Hne3) Hlen Hsize.
  unfold INT_MAX in Hsize.
  destruct (zero_loop (Z.to_nat NumTotalRegs) 0 s)
    as (s0 & Hloop & Hs0 & Hl0 & Hregs0); [lia..|].
  assert (registers s0 = replicate (Z.to_nat NumTotalRegs) 0) as Hzero.
  { apply list_eq. intros i. rewrite Hregs0. case_decide.
    - symmetry. apply lookup_replicate_2. lia.
    - rewrite lookup_ge_None_2 by lia.
      symmetry. apply lookup_replicate_None. lia. }
  exists s0. eexists. split; [done|]. split; [done|].
  unfold Nachos.InitRegisters. rewrite Hloop. simpl.
  rewrite WriteRegister_Done by lia. simpl.
  rewrite WriteRegister_Done by (simpl; rewrite length_insert; lia). simpl.
  rewrite WriteRegister_Done by (simpl; rewrite !length_insert; lia). simpl.
  rewrite to_int_to_uint, to_int_small by lia.
  split; [done|]. simpl.
  split.
  { assert (totalPagesCount s0 = totalPagesCount s ∧
            mainMemory s0 = mainMemory s ∧ heap s0 = heap s)
      as (E1 & E2 & E3) by (by rewrite Hs0).
    unfold set_registers. simpl. by rewrite E1, E2, E3. }
  assert (∀ r : Z, 0 ≤ r < NumTotalRegs →
            (Z.to_nat r < length (registers s0))%nat) as Hin by (intros; lia).
  split.
  { rewrite !list_lookup_insert_ne by lia.
    apply list_lookup_insert_eq. by apply Hin. }
  split.
  { rewrite list_lookup_insert_ne by lia.
    apply list_lookup_insert_eq. rewrite length_insert. by apply Hin. }
  split.
  { apply list_lookup_insert_eq. rewrite !length_insert. by apply Hin. }
  split.
  { intros r Hr H1 H2 H3. rewrite !list_lookup_insert_ne by lia.
    rewrite Hzero. apply lookup_replicate_2. lia. }
  intros Hn Hp.
  rewrite list_lookup_insert_eq by (rewrite !length_insert; by apply Hin).
  rewrite Hn, Hp. done.
Qed.

End RegisterProperties.

(** * Concrete runs *)

(** C1: forking from a parent that does not start at frame 0 does not
    duplicate the parent's memory. Two programs are loaded, the second on
    frames 9..17 (bytes 1152..2303); the child forked from it gets frames
    18..26, all different from the parent's, but the copy stops at byte
    [parentStartPhysPage + numPages * PageSize] = 1161: nine bytes are
    copied and from the tenth on the child's memory differs from the
    parent's. *)
Theorem fork_copies_only_a_prefix :
  getNumPages Sample.second = 9 ∧
  getStartPhysPage Sample.second Sample.loaded2 = Done 9 ∧
  totalPagesCount Sample.loaded2 = 18 ∧
  Sample.fork 9 9 Sample.loaded2 = Done (Sample.child, Sample.forked) ∧
  Sample.frames_of Sample.child Sample.forked = Some (seqZ 18 9) ∧
  take 9 (Sample.frames 18 9 Sample.forked)
    = take 9 (Sample.frames 9 9 Sample.forked) ∧
  Sample.frames 9 9 Sample.forked !! 9%nat = Some x2a ∧
  Sample.frames 18 9 Sample.forked !! 9%nat = Some x00 ∧
  Sample.frames 18 9 Sample.forked ≠ Sample.frames 9 9 Sample.forked.
Proof.
  repeat split; try (vm_compute; reflexivity).
  intros H. apply (f_equal (λ l, l !! 9%nat)) in H.
  vm_compute in H. discriminate.
Qed.

(** C2: the zero-fill of construction from an image starts at byte 0 of
    memory, not at the first byte of the new frames. After one program is
    loaded on frames 0..8 its code fills frame 0; loading a second program,
    whose frames are 9..17, leaves frame 0 all zero. *)
Theorem image_zero_fill_clears_earlier_frames :
  Sample.exec Sample.image Sample.boot = Done (Sample.first, Sample.loaded1) ∧
  totalPagesCount Sample.loaded1 = 9 ∧
  Sample.frames 0 1 Sample.loaded1 = replicate 128 x2a ∧
  Sample.exec Sample.image Sample.loaded1
    = Done (Sample.second, Sample.loaded2) ∧
  Sample.frames_of Sample.second Sample.loaded2 = Some (seqZ 9 9) ∧
  Sample.frames 0 1 Sample.loaded2 = replicate 128 x00.
Proof. repeat split; vm_compute; reflexivity. Qed.

(** C3: [Translate] does not read the table it is given. Called on an
    object whose own table maps page 0 to frame 9, with a table whose entry
    0 is not valid, it returns [NoException] and the address in frame 9,
    where the table passed calls for a [PageFaultException]; and it marks
    the entry of the object's own table as used. *)
Theorem Translate_reads_the_member_table :
  pageTable Sample.space = 1%positive ∧
  heap Sample.mapped !! 2%positive = Some Sample.other_table ∧
  valid <$> Sample.entry_of 2%positive 0 Sample.mapped = Some false ∧
  Sample.translate Sample.space 4 2%positive 1 Sample.mapped
    = Done (NoException, Some (9 * 128 + 4), Sample.mapped_used) ∧
  heap Sample.mapped_used !! 2%positive = Some Sample.other_table ∧
  use <$> Sample.entry_of 1%positive 0 Sample.mapped_used = Some true.
Proof. repeat split; vm_compute; reflexivity. Qed.

(** ** The theorems above at the concrete machine *)

Lemma sample_machine_ok : machine_ok 128 32 4096.
Proof. unfold machine_ok, INT_MAX. repeat split; (reflexivity || (intros H; discriminate H)). Defined.

Lemma sample_translate :
  Sample.translate Sample.space 4 1%positive 3 Sample.mapped
  = Done (NoException, Some 1156, Sample.mapped_used).
Proof. vm_compute. reflexivity. Defined.

(** Page 0 of the hand-made mapping is valid and on frame 9, so an aligned
    access to byte 4 goes through. *)
Lemma Translate_fault_order_witness :
  machine_ok 128 32 4096 ∧
  heap Sample.mapped !! pageTable Sample.space = Some Sample.table ∧
  3 ≤ Z.of_nat (length Sample.table) ∧
  ∃ s' tbl' entry',
    Sample.translate Sample.space 4 1%positive 3 Sample.mapped
    = Done (NoException, Some (9 * 128 + 4), s') ∧
    heap s' !! pageTable Sample.space = Some tbl' ∧
    tbl' !! Z.to_nat (to_uint 4 / 128) = Some entry' ∧
    use entry' = true.
Proof.
  assert (heap Sample.mapped !! pageTable Sample.space = Some Sample.table)
    as Htbl by reflexivity.
  assert (3 ≤ Z.of_nat (length Sample.table)) as Hlen by (simpl; lia).
  split; [exact sample_machine_ok|]. split; [exact Htbl|]. split; [exact Hlen|].
  destruct (Translate_fault_order 128 32 4096 Sample.space 4 1%positive 3
              Sample.mapped Sample.table sample_machine_ok Htbl Hlen)
    as (_ & _ & H).
  destruct H as (entry & Hentry & _ & _ & Hgood);
    [reflexivity | reflexivity |].
  vm_compute in Hentry. injection Hentry as <-.
  destruct (Hgood eq_refl eq_refl)
    as (_ & s' & tbl' & entry' & Hrun & Htbl' & Hentry' & Huse & _).
  exists s', tbl', entry'.
  split; [exact Hrun|]. split; [exact Htbl'|]. split; [exact Hentry'|].
  exact Huse.
Defined.

Lemma Translate_frame_witness :
  Sample.translate Sample.space 4 1%positive 3 Sample.mapped
  = Done (NoException, Some 1156, Sample.mapped_used) ∧
  mainMemory Sample.mapped_used = mainMemory Sample.mapped ∧
  heap Sample.mapped_used !! 2%positive = heap Sample.mapped !! 2%positive.
Proof.
  split; [exact sample_translate|].
  destruct (Translate_frame 128 32 4096 Sample.space 4 1%positive 3
              Sample.mapped NoException (Some 1156) Sample.mapped_used
              sample_translate) as [_ H].
  destruct (H eq_refl) as (tbl & entry & _ & _ & _ & _ & Hmem & _ & Hother & _).
  split; [exact Hmem|]. apply Hother. discriminate.
Defined.

Lemma Translate_twice_witness :
  Sample.translate Sample.space 4 1%positive 3 Sample.mapped
  = Done (NoException, Some 1156, Sample.mapped_used) ∧
  Sample.translate Sample.space 4 1%positive 3 Sample.mapped_used
  = Done (NoException, Some 1156, Sample.mapped_used).
Proof.
  split; [exact sample_translate|].
  exact (Translate_twice 128 32 4096 Sample.space 4 1%positive 3
           Sample.mapped NoException (Some 1156) Sample.mapped_used
           sample_translate).
Defined.

Lemma Translate_physAddr_bounds_witness :
  machine_ok 128 32 4096 ∧
  Sample.translate Sample.space 4 1%positive 3 Sample.mapped ≠ Abort ∧
  ∃ physAddr, Some 1156 = Some physAddr ∧ 0 ≤ physAddr ∧ physAddr + 4 ≤ 4096.
Proof.
  split; [exact sample_machine_ok|].
  destruct (Translate_physAddr_bounds 128 32 4096 Sample.space 4 1%positive 3
              Sample.mapped sample_machine_ok) as [Hrun Hbounds].
  split; [exact Hrun|].
  exact (Hbounds (Some 1156) Sample.mapped_used sample_translate).
Defined.


Example three_page_image_after_nine :
  totalPagesCount Sample.nine_committed = 9 ∧
  numPages Sample.fourth = 3 ∧
  Sample.frames_of Sample.fourth Sample.twelve_committed = Some [9; 10; 11] ∧
  totalPagesCount Sample.twelve_committed = 12.
Proof. repeat split; vm_compute; reflexivity. Qed.

(** The sample image, 128 bytes of code and a 1024-byte stack, takes 9 pages. *)
Lemma image_numPages_is_ceiling_witness :
  0 < 128 ∧
  Sample.exec Sample.image Sample.boot = Done (Sample.first, Sample.loaded1) ∧
  numPages Sample.first = 9.
Proof.
  assert (Sample.exec Sample.image Sample.boot
          = Done (Sample.first, Sample.loaded1)) as Hrun
    by (vm_compute; reflexivity).
  split; [lia|]. split; [exact Hrun|].
  destruct (image_numPages_is_ceiling 128 32 4096 1024 Sample.magic id 40
              Sample.le_noffH Sample.image Sample.boot Sample.first
              Sample.loaded1 ltac:(lia) Hrun)
    as (noffH & tbl & Hhdr & _ & _ & _ & Hexample).
  vm_compute in Hhdr. injection Hhdr as <-.
  exact (Hexample eq_refl eq_refl eq_refl eq_refl eq_refl).
Defined.

Lemma InitRegisters_sets_registers_witness :
  register_layout_ok 40 34 35 29 ∧
  Z.of_nat (length (registers Sample.boot)) = 40 ∧
  0 ≤ numPages Sample.first * 128 ≤ INT_MAX ∧
  ∃ s', Sample.init_registers Sample.first Sample.boot = Done s' ∧
        registers s' !! Z.to_nat 29 = Some 1136.
Proof.
  assert (register_layout_ok 40 34 35 29) as Hlayout
    by (unfold register_layout_ok; lia).
  assert (Z.of_nat (length (registers Sample.boot)) = 40) as Hlen
    by reflexivity.
  assert (numPages Sample.first = 9) as Hn by (vm_compute; reflexivity).
  assert (0 ≤ numPages Sample.first * 128 ≤ INT_MAX) as Hsize
    by (rewrite Hn; unfold INT_MAX; lia).
  split; [exact Hlayout|]. split; [exact Hlen|]. split; [exact Hsize|].
  destruct (InitRegisters_sets_registers 128 40 34 35 29 Sample.first
              Sample.boot Hlayout Hlen Hsize)
    as (s0 & s' & _ & _ & Hrun & _ & _ & _ & _ & _ & Hexample).
  exists s'. split; [exact Hrun|]. exact (Hexample Hn eq_refl).
Defined.

(** * Further properties of the code *)

Section MoreProperties.

Variables PageSize NumPhysPages MemorySize : Z.
Variables (UserStackSize NOFFMAGIC : Z) (WordToHost : Z → Z).
Variables (sizeof_noffH : Z) (cast_noffH : list byte → NoffHeader).

Local Abbreviation machine_ok := (machine_ok PageSize NumPhysPages MemorySize).
Local Abbreviation Translate := (Translate PageSize NumPhysPages MemorySize).
Local Abbreviation setup_pageTable := (setup_pageTable NumPhysPages).
Local Abbreviation SwapHeader := (SwapHeader WordToHost).
Local Abbreviation read_header :=
  (read_header NOFFMAGIC WordToHost sizeof_noffH cast_noffH).
Local Abbreviation image_numPages := (image_numPages PageSize UserStackSize).
Local Abbreviation zero_memory := (zero_memory PageSize).
Local Abbreviation load_segment := (load_segment PageSize NumPhysPages MemorySize).
Local Abbreviation load_segments := (load_segments PageSize NumPhysPages MemorySize).
Local Abbreviation AddrSpace_image :=
  (AddrSpace_image PageSize NumPhysPages MemorySize UserStackSize NOFFMAGIC
                   WordToHost sizeof_noffH cast_noffH).
Local Abbreviation AddrSpace_fork := (AddrSpace_fork PageSize NumPhysPages).
Local Abbreviation returned_by_constructor :=
  (returned_by_constructor PageSize NumPhysPages MemorySize UserStackSize
                           NOFFMAGIC WordToHost sizeof_noffH cast_noffH).

Implicit Types (this : AddrSpace) (s : State) (noffH : NoffHeader).

(** What either constructor leaves behind. *)
Lemma returned_by_constructor_inv s this s' :
  machine_ok → 0 ≤ totalPagesCount s ≤ NumPhysPages →
  returned_by_constructor s this s' →
  0 ≤ numPages this ∧
  totalPagesCount s + numPages this ≤ NumPhysPages ∧
  totalPagesCount s' = totalPagesCount s + numPages this ∧
  ∃ tbl, heap s' !! pageTable this = Some tbl ∧
    set_use <$> tbl
    = set_use <$> fill_pageTable (numPages this) (totalPagesCount s).
Proof.
  intros Hok Hc Hbuilt.
  assert (∃ s1, 0 ≤ numPages this ≤ NumPhysPages ∧
            setup_pageTable (numPages this) s = Done (this, s1) ∧
            same_mappings s1 s') as (s1 & Hn & Hsetup & Hcount & Hsame).
  { destruct Hbuilt as [[executable H]|(p & b & Hp & H)].
    - apply AddrSpace_image_inv in H
        as (noffH & s1 & s2 & _ & Hn & Hle & Hsetup & Hzero & Hload).
      exists s1. rewrite Hn. split; [|split; [done|]].
      + split; [|done].
        apply divRoundUp_nonneg; [apply to_uint_range|apply Hok].
      + eapply same_mappings_trans;
          [by eapply zero_memory_same_mappings
          |by eapply load_segments_same_mappings].
    - apply AddrSpace_fork_inv in H as (s1 & Hn & Hle & Hsetup & Hcopy).
      exists s1. rewrite Hn. split; [lia|]. split; [done|].
      by eapply copy_parent_same_mappings. }
  destruct (setup_pageTable_inv _ _ _ _ _ _ _ Hok Hc Hn Hsetup)
    as (Hthis & -> & Hsum).
  split; [lia|]. split; [done|]. split; [by rewrite Hcount|].
  apply Hsame. simpl. rewrite Hthis. simpl. apply lookup_insert_eq.
Qed.

(** Entry [i] of a table that is a filled table up to use bits. *)
Lemma lookup_filled (tbl : list TranslationEntry) n c i :
  set_use <$> tbl = set_use <$> fill_pageTable n c →
  0 ≤ i < n → 0 ≤ c → c + n ≤ 2 ^ 32 →
  ∃ e, tbl !! Z.to_nat i = Some e ∧ valid e = true ∧ physicalPage e = i + c.
Proof.
  intros Heq Hi Hc Hn.
  apply (f_equal (λ l, l !! Z.to_nat i)) in Heq.
  rewrite !list_lookup_fmap, lookup_fill_pageTable in Heq by done.
  destruct (tbl !! Z.to_nat i) as [e|]; [|done].
  exists e. split; [done|]. simpl in Heq.
  assert (set_use e = set_use (new_entry c i)) as Hf by congruence.
  apply set_use_fields in Hf as (_ & -> & -> & _). simpl.
  split; [done|]. apply to_uint_small. lia.
Qed.

(** Translation through such a table: a linear map onto the frames from
    [c] on, and an address error outside the pages of the table. *)
Lemma Translate_filled this virtAddr pgTable s tbl c :
  machine_ok →
  heap s !! pageTable this = Some tbl →
  set_use <$> tbl = set_use <$> fill_pageTable (numPages this) c →
  0 ≤ numPages this → 0 ≤ c → c + numPages this ≤ NumPhysPages →
  (Z.land virtAddr 3 = 0 → to_uint virtAddr < numPages this * PageSize →
     ∃ s', Translate this virtAddr pgTable (numPages this) s
           = Done (NoException, Some (c * PageSize + to_uint virtAddr), s') ∧
       mainMemory s' = mainMemory s ∧ same_mappings s s') ∧
  (Z.land virtAddr 3 ≠ 0 ∨ numPages this * PageSize ≤ to_uint virtAddr →
     Translate this virtAddr pgTable (numPages this) s
     = Done (AddressErrorException, None, s)).
Proof.
  intros Hok Htbl Heq Hn Hc Hsum.
  pose proof (frames_fit _ _ _ Hok) as Hfit. unfold INT_MAX in Hfit.
  pose proof Hok as (Hpos & Hps & Hmem & Hmax).
  pose proof (to_uint_range virtAddr) as Hu.
  split.
  - intros Hal Hin.
    assert (0 ≤ to_uint virtAddr / PageSize < numPages this) as Hvpn.
    { split; [apply Z.div_pos; lia|].
      apply Z.div_lt_upper_bound; lia. }
    destruct (lookup_filled tbl (numPages this) c
                (to_uint virtAddr / PageSize) Heq Hvpn Hc)
      as (e & He & Hv & Hpp); [lia|].
    pose proof (Translate_entry PageSize NumPhysPages MemorySize this virtAddr
                  pgTable (numPages this) s tbl e Hal Hvpn Htbl He) as HT.
    rewrite Hv, Hpp in HT. simpl in HT.
    rewrite to_uint_small in HT by lia.
    destruct (Z.geb_spec (to_uint virtAddr / PageSize + c) NumPhysPages);
      [lia|].
    destruct (physAddr_in_memory PageSize NumPhysPages MemorySize virtAddr
                (to_uint virtAddr / PageSize + c) Hok Hal)
      as (E1 & H0 & H1 & E2); [lia|].
    rewrite E1, E2 in HT.
    destruct (Z.geb_spec ((to_uint virtAddr / PageSize + c) * PageSize
                          + to_uint virtAddr `mod` PageSize) 0); [|lia].
    destruct (Z.leb_spec ((to_uint virtAddr / PageSize + c) * PageSize
                          + to_uint virtAddr `mod` PageSize + 4) MemorySize);
      [|lia].
    simpl in HT.
    replace ((to_uint virtAddr / PageSize + c) * PageSize
             + to_uint virtAddr `mod` PageSize)
      with (c * PageSize + to_uint virtAddr) in HT
      by (rewrite (Z.div_mod (to_uint virtAddr) PageSize) at 1 by lia; lia).
    eexists. split; [exact HT|].
    apply Translate_same_mappings in HT as [Hsame Hm]. done.
  - intros [Hmis|Hout]; [by apply Translate_misaligned|].
    destruct (decide (Z.land virtAddr 3 = 0)) as [Hal|Hmis];
      [|by apply Translate_misaligned].
    apply Translate_out_of_range; [done|].
    apply Z.div_le_lower_bound; lia.
Qed.


(** X2: running out of frames is fatal. When the pages a construction asks
    for do not fit in the frames that are left, either constructor stops on
    a failed assertion: no address space is returned. *)
Theorem constructors_abort_without_frames s :
  machine_ok → 0 ≤ totalPagesCount s ≤ NumPhysPages →
  (∀ executable noffH,
     read_header executable = Done noffH →
     NumPhysPages < totalPagesCount s + image_numPages noffH →
     AddrSpace_image executable s = Abort) ∧
  (∀ numParentPages parentStartPhysPage,
     NumPhysPages < totalPagesCount s + numParentPages →
     AddrSpace_fork numParentPages parentStartPhysPage s = Abort).
Proof.
  intros Hok Hc.
  pose proof (frames_fit _ _ _ Hok) as Hfit. unfold INT_MAX in Hfit.
  assert (∀ n, NumPhysPages < totalPagesCount s + n → n ≤ NumPhysPages →
            ∀ (k : AddrSpace * State → result (AddrSpace * State)),
              setup_pageTable n s ≫= k = Abort) as Hfull.
  { intros n Hn Hle k. unfold Nachos.setup_pageTable. simpl.
    rewrite to_int_small by lia.
    by destruct (Z.leb_spec (totalPagesCount s + n) NumPhysPages); [lia|]. }
  split.
  - intros executable noffH Hhdr Hn. unfold Nachos.AddrSpace_image.
    rewrite Hhdr. simpl.
    destruct (Z.leb_spec (image_numPages noffH) NumPhysPages); [|done].
    simpl. by apply Hfull.
  - intros p b Hn. unfold Nachos.AddrSpace_fork.
    destruct (Z.leb_spec p NumPhysPages); [|done].
    simpl. by apply Hfull.
Qed.

(** X3: what the accessors say about a new address space. The first frame
    of a space with at least one page is the value the frame counter had
    before the construction, the counter has advanced by [getNumPages], and
    asking a space without pages for its first frame reads outside the
    (empty) table. *)
Theorem accessors_after_construction s this s' :
  machine_ok → 0 ≤ totalPagesCount s ≤ NumPhysPages →
  returned_by_constructor s this s' →
  totalPagesCount s' = totalPagesCount s + getNumPages this ∧
  (0 < getNumPages this →
     getStartPhysPage this s' = Done (totalPagesCount s)) ∧
  (getNumPages this = 0 → getStartPhysPage this s' = Undefined).
Proof.
  intros Hok Hc Hbuilt.
  pose proof (frames_fit _ _ _ Hok) as Hfit. unfold INT_MAX in Hfit.
  destruct (returned_by_constructor_inv _ _ _ Hok Hc Hbuilt)
    as (Hn & Hsum & Hcount & tbl & Htbl & Heq).
  unfold getNumPages. split; [done|].
  unfold getStartPhysPage, table_at, entry_at. rewrite Htbl. simpl.
  split.
  - intros Hpos.
    destruct (lookup_filled tbl _ _ 0 Heq) as (e & He & _ & Hpp); [lia..|].
    simpl in He. rewrite He. simpl. rewrite Hpp, to_uint_small by lia.
    f_equal; lia.
  - intros H0.
    assert (length tbl = 0%nat) as Hlen.
    { rewrite <- (length_fmap set_use), Heq, length_fmap,
        length_fill_pageTable, H0. done. }
    by destruct tbl.
Qed.

(** X4: an address space as its constructor left it maps its virtual
    addresses linearly onto its frames. With [c] the frame counter before
    the construction, every aligned address below [numPages * PageSize]
    translates to [c * PageSize] plus that address, and every other address
    (misaligned, or read as unsigned at or past the end) is an
    [AddressErrorException] that leaves the state alone: there is no page
    fault, no bus error, no failed assertion and no wild read. *)
Theorem Translate_on_constructed s this s' virtAddr pgTable :
  machine_ok → 0 ≤ totalPagesCount s ≤ NumPhysPages →
  returned_by_constructor s this s' →
  (Z.land virtAddr 3 = 0 → to_uint virtAddr < numPages this * PageSize →
     ∃ s'', Translate this virtAddr pgTable (numPages this) s'
            = Done (NoException,
                    Some (totalPagesCount s * PageSize + to_uint virtAddr),
                    s'')) ∧
  (Z.land virtAddr 3 ≠ 0 ∨ numPages this * PageSize ≤ to_uint virtAddr →
     Translate this virtAddr pgTable (numPages this) s'
     = Done (AddressErrorException, None, s')).
Proof.
  intros Hok Hc Hbuilt.
  destruct (returned_by_constructor_inv _ _ _ Hok Hc Hbuilt)
    as (Hn & Hsum & Hcount & tbl & Htbl & Heq).
  destruct (Translate_filled this virtAddr pgTable s' tbl (totalPagesCount s)
              Hok Htbl Heq Hn) as [Hgood Hbad]; [lia|done|].
  split; [|done].
  intros Hal Hin. destruct (Hgood Hal Hin) as (s'' & HT & _). eauto.
Qed.

(** X6: a negative virtual address is never looked up. Read as unsigned it
    lies at or past 2^31, so for any table that covers at most 2^31 bytes
    the call returns [AddressErrorException] without touching the table. *)
Theorem Translate_negative_address this virtAddr pgTable pgSize s :
  0 < PageSize → - 2 ^ 31 ≤ virtAddr < 0 → pgSize * PageSize ≤ 2 ^ 31 →
  Translate this virtAddr pgTable pgSize s
  = Done (AddressErrorException, None, s).
Proof.
  intros Hpos Hneg Hsize.
  destruct (decide (Z.land virtAddr 3 = 0)) as [Hal|Hmis];
    [|by apply Translate_misaligned].
  apply Translate_out_of_range; [done|].
  assert (to_uint virtAddr = virtAddr + 2 ^ 32) as ->.
  { unfold to_uint. symmetry. apply (Z.mod_unique_pos _ _ (-1)); lia. }
  apply Z.div_le_lower_bound; lia.
Qed.

(** *** Where the segments of an image land *)

Lemma write_bytes_Done (m : list byte) a bs m' :
  write_bytes m a bs = Done m' →
  0 ≤ a ∧ a + Z.of_nat (length bs) ≤ Z.of_nat (length m) ∧
  m' = store_bytes m a bs.
Proof.
  unfold write_bytes, store_bytes.
  destruct (Z.leb_spec 0 a); simpl; [|done].
  destruct (Z.leb_spec (a + Z.of_nat (length bs)) (Z.of_nat (length m)));
    [|done].
  by intros [= <-].
Qed.

(** One segment, copied in through a table that is a filled table up to
    use bits: it goes to the translation of its address, or, when its
    address does not translate, to whatever [physicalAddress] held. *)
Lemma load_segment_filled this executable seg pa s tbl c r s' :
  machine_ok →
  heap s !! pageTable this = Some tbl →
  set_use <$> tbl = set_use <$> fill_pageTable (numPages this) c →
  0 ≤ numPages this → 0 ≤ c → c + numPages this ≤ NumPhysPages →
  load_segment this executable seg pa s = Done (r, s') →
  let mapped := Z.land (virtualAddr seg) 3 = 0 ∧
                to_uint (virtualAddr seg) < numPages this * PageSize in
  let bytes := ReadAt executable (size seg) (inFileAddr seg) in
  (size seg ≤ 0 ∧ r = pa ∧ s' = s) ∨
  (0 < size seg ∧ ∃ a, r = Some a ∧
     (mapped → a = c * PageSize + to_uint (virtualAddr seg)) ∧
     (¬ mapped → pa = Some a) ∧
     0 ≤ to_uint a ∧
     to_uint a + Z.of_nat (length bytes) ≤ Z.of_nat (length (mainMemory s)) ∧
     mainMemory s' = store_bytes (mainMemory s) (to_uint a) bytes).
Proof.
  intros Hok Htbl Heq Hn Hc Hsum H mapped bytes.
  unfold Nachos.load_segment in H.
  destruct (Z.gtb_spec (size seg) 0) as [Hpos|Hnone];
    [|left; by injection H as <- <-].
  right. split; [lia|].
  destruct (Translate_filled this (virtualAddr seg) (pageTable this) s tbl c
              Hok Htbl Heq Hn Hc Hsum) as [Hgood Hbad].
  destruct (decide mapped) as [[Hal Hin]|Hnot].
  - destruct (Hgood Hal Hin) as (s1 & HT & Hmem & _).
    rewrite HT in H. simpl in H.
    apply bind_Done in H as (m & Hw & [= <- <-]).
    apply write_bytes_Done in Hw as (H0 & Hfit & ->).
    eexists. split; [done|]. rewrite <- Hmem.
    repeat split; try done. intros Hnot. by destruct Hnot.
  - rewrite Hbad in H.
    2: { destruct (decide (Z.land (virtualAddr seg) 3 = 0)); [|by left].
         right. unfold mapped in Hnot. lia. }
    simpl in H.
    apply bind_Done in H as (a & Ha & H).
    apply bind_Done in H as (m & Hw & [= <- <-]).
    apply write_bytes_Done in Hw as (H0 & Hfit & ->).
    destruct pa as [a'|]; [|done]. injection Ha as ->.
    exists a. repeat split; try done.
Qed.

(** The memory a construction from an image leaves, segment by segment. *)
Lemma image_memory executable s this s' :
  machine_ok → 0 ≤ totalPagesCount s ≤ NumPhysPages →
  AddrSpace_image executable s = Done (this, s') →
  ∃ noffH, read_header executable = Done noffH ∧
    let n := numPages this in
    let base := totalPagesCount s * PageSize in
    let top := (totalPagesCount s + n) * PageSize in
    let zeroed :=
      replicate (Z.to_nat top) x00 ++ drop (Z.to_nat top) (mainMemory s) in
    let mapped seg :=
      Z.land (virtualAddr seg) 3 = 0 ∧ to_uint (virtualAddr seg) < n * PageSize in
    let place seg := base + to_uint (virtualAddr seg) in
    let bytes seg := ReadAt executable (size seg) (inFileAddr seg) in
    let with_code :=
      if size (code noffH) >? 0
      then store_bytes zeroed (place (code noffH)) (bytes (code noffH))
      else zeroed in
    top ≤ Z.of_nat (length (mainMemory s)) ∧
    (0 < size (code noffH) →
       mapped (code noffH) ∧
       place (code noffH) + Z.of_nat (length (bytes (code noffH)))
       ≤ Z.of_nat (length (mainMemory s))) ∧
    (size (initData noffH) ≤ 0 → mainMemory s' = with_code) ∧
    (0 < size (initData noffH) → mapped (initData noffH) →
       mainMemory s'
       = store_bytes with_code (place (initData noffH))
                     (bytes (initData noffH))) ∧
    (0 < size (initData noffH) → ¬ mapped (initData noffH) →
       0 < size (code noffH) ∧
       mainMemory s'
       = store_bytes with_code (place (code noffH))
                     (bytes (initData noffH))).
Proof.
  intros Hok Hc H.
  pose proof (frames_fit _ _ _ Hok) as Hfit. unfold INT_MAX in Hfit.
  pose proof Hok as (Hpos & Hps & Hmem & Hmax). unfold INT_MAX in Hmax.
  apply AddrSpace_image_inv in H
    as (noffH & s1 & s2 & Hhdr & Hn & Hle & Hsetup & Hzero & Hload).
  rewrite <- Hn in Hsetup, Hle.
  assert (0 ≤ numPages this) as Hnn.
  { rewrite Hn. apply divRoundUp_nonneg; [apply to_uint_range|done]. }
  destruct (setup_pageTable_inv _ _ _ _ _ _ _ Hok Hc (conj Hnn Hle) Hsetup)
    as (Hthis & -> & Hsum).
  apply zero_memory_spec in Hzero as [Hlen ->]. simpl in Hlen.
  rewrite to_uint_small in Hlen by nia.
  simpl in Hload. rewrite to_uint_small in Hload by nia.
  exists noffH. split; [done|].
  set (c := totalPagesCount s) in *. set (n := numPages this) in *.
  set (zeroed := replicate (Z.to_nat ((c + n) * PageSize)) x00
                 ++ drop (Z.to_nat ((c + n) * PageSize)) (mainMemory s)) in *.
  cbv zeta. split; [done|].
  unfold Nachos.load_segments in Hload.
  apply bind_Done in Hload as ([pa1 s3] & Hcode & Hload).
  apply bind_Done in Hload as ([pa2 s4] & Hdata & [= ->]).
  assert (pageTable this = new_loc s) as Hp by (by rewrite Hthis).
  pose proof (load_segment_same_mappings _ _ _ _ _ _ _ _ _ _ Hcode)
    as [_ Hsame].
  destruct (Hsame (pageTable this) (fill_pageTable n c))
    as (tbl3 & Htbl3 & Heq3).
  { simpl. rewrite Hp. apply lookup_insert_eq. }
  eapply (load_segment_filled _ _ _ _ _ (fill_pageTable n c) c) in Hcode;
    [|done|simpl; rewrite Hp; apply lookup_insert_eq|done|done|lia|done].
  eapply (load_segment_filled _ _ _ _ _ tbl3 c) in Hdata;
    [|done|done|done|done|lia|done].
  simpl in Hcode.
  assert (length zeroed = length (mainMemory s)) as Hzlen.
  { unfold zeroed. rewrite length_app, length_replicate, length_drop. lia. }
  destruct Hcode as [(Hcs & -> & ->)|(Hcs & a & -> & Hmapped & Hstale & Ha0
                                     & Hafit & Hmem3)].
  - (* no code segment *)
    destruct (Z.gtb_spec (size (code noffH)) 0); [lia|].
    split; [lia|].
    destruct Hdata as [(Hds & _ & ->)|(Hds & a & _ & Hmapped & Hstale & _
                                       & _ & ->)]; simpl.
    + split; [done|]. split; [lia|]. lia.
    + split; [lia|]. split.
      * intros _ Hm. rewrite (Hmapped Hm).
        rewrite (to_uint_small (c * PageSize + to_uint (virtualAddr (initData noffH))));
          [done|].
        destruct Hm as [_ Hm]. pose proof (to_uint_range (virtualAddr (initData noffH))).
        fold c n in Hm. nia.
      * intros _ Hm. by specialize (Hstale Hm).
  - (* a code segment *)
    destruct (Z.gtb_spec (size (code noffH)) 0); [|lia].
    destruct (decide (Z.land (virtualAddr (code noffH)) 3 = 0
                      ∧ to_uint (virtualAddr (code noffH)) < n * PageSize))
      as [Hm|Hm]; [|by specialize (Hstale Hm)].
    specialize (Hmapped Hm). subst a.
    pose proof (to_uint_range (virtualAddr (code noffH))) as Hu.
    assert (to_uint (c * PageSize + to_uint (virtualAddr (code noffH)))
            = c * PageSize + to_uint (virtualAddr (code noffH))) as Eu.
    { apply to_uint_small. destruct Hm as [_ Hm]. nia. }
    rewrite Eu in *.
    split; [split; [done|]; by rewrite <- Hzlen|].
    destruct Hdata as [(Hds & _ & ->)|(Hds & a & _ & Hmapped' & Hstale' & _
                                       & _ & ->)]; rewrite Hmem3.
    + split; [done|]. split; [lia|]. lia.
    + split; [lia|]. split.
      * intros _ Hm'. rewrite (Hmapped' Hm').
        rewrite (to_uint_small (c * PageSize + to_uint (virtualAddr (initData noffH))));
          [done|].
        destruct Hm' as [_ Hm'].
        pose proof (to_uint_range (virtualAddr (initData noffH))).
        fold c n in Hm'. nia.
      * intros _ Hm'. specialize (Hstale' Hm'). injection Hstale' as <-.
        by rewrite Eu.
Qed.

(** X7: the memory a construction from an image leaves. All of memory below
    the end of the new frames is zeroed; then the code segment, if it has a
    size, is copied to [c * PageSize] plus its virtual address ([c] the
    frame counter before), which must be an aligned address inside the new
    space; then the initialised data, if it has a size, is copied likewise,
    except that when its virtual address does not translate its bytes go to
    the address the code went to. *)
Theorem image_memory_layout executable s this s' :
  machine_ok → 0 ≤ totalPagesCount s ≤ NumPhysPages →
  AddrSpace_image executable s = Done (this, s') →
  ∃ noffH, read_header executable = Done noffH ∧
    let n := numPages this in
    let base := totalPagesCount s * PageSize in
    let top := (totalPagesCount s + n) * PageSize in
    let zeroed :=
      replicate (Z.to_nat top) x00 ++ drop (Z.to_nat top) (mainMemory s) in
    let mapped seg :=
      Z.land (virtualAddr seg) 3 = 0 ∧ to_uint (virtualAddr seg) < n * PageSize in
    let place seg := base + to_uint (virtualAddr seg) in
    let bytes seg := ReadAt executable (size seg) (inFileAddr seg) in
    let with_code :=
      if size (code noffH) >? 0
      then store_bytes zeroed (place (code noffH)) (bytes (code noffH))
      else zeroed in
    top ≤ Z.of_nat (length (mainMemory s)) ∧
    (0 < size (code noffH) →
       mapped (code noffH) ∧
       place (code noffH) + Z.of_nat (length (bytes (code noffH)))
       ≤ Z.of_nat (length (mainMemory s))) ∧
    (size (initData noffH) ≤ 0 → mainMemory s' = with_code) ∧
    (0 < size (initData noffH) → mapped (initData noffH) →
       mainMemory s'
       = store_bytes with_code (place (initData noffH))
                     (bytes (initData noffH))) ∧
    (0 < size (initData noffH) → ¬ mapped (initData noffH) →
       0 < size (code noffH) ∧
       mainMemory s'
       = store_bytes with_code (place (code noffH))
                     (bytes (initData noffH))).
Proof. apply image_memory. Qed.

(** Reading a memory some bytes were stored in. *)
Lemma lookup_store_bytes_in (m : list byte) a bs (j : nat) :
  0 ≤ a → a + Z.of_nat (length bs) ≤ Z.of_nat (length m) →
  (j < length bs)%nat →
  store_bytes m a bs !! (Z.to_nat a + j)%nat = bs !! j.
Proof.
  intros Ha Hfit Hj. unfold store_bytes.
  rewrite lookup_app_r by (rewrite length_take; lia).
  rewrite length_take.
  replace (Z.to_nat a + j - Z.to_nat a `min` length m)%nat with j by lia.
  by apply lookup_app_l.
Qed.

Lemma lookup_store_bytes_out (m : list byte) a bs (i : nat) :
  0 ≤ a → a + Z.of_nat (length bs) ≤ Z.of_nat (length m) →
  Z.of_nat i < a ∨ a + Z.of_nat (length bs) ≤ Z.of_nat i →
  store_bytes m a bs !! i = m !! i.
Proof.
  intros Ha Hfit Hout. unfold store_bytes.
  destruct Hout as [Hlo|Hhi].
  - rewrite lookup_app_l by (rewrite length_take; lia).
    apply lookup_take_lt. lia.
  - rewrite lookup_app_r by (rewrite length_take; lia).
    rewrite lookup_app_r by (rewrite length_take; lia).
    rewrite lookup_drop, length_take. f_equal. lia.
Qed.

(** X11: an image with code only. Its code is in memory, byte for byte as
    [ReadAt] delivers it, from [c * PageSize] plus the virtual address of
    the segment on, and every other byte from the bottom of memory up to
    the end of the new frames is zero: uninitialised data and the stack
    start out cleared. *)
Theorem image_code_and_zeroes executable s this s' noffH :
  machine_ok → 0 ≤ totalPagesCount s ≤ NumPhysPages →
  AddrSpace_image executable s = Done (this, s') →
  read_header executable = Done noffH →
  0 < size (code noffH) → size (initData noffH) ≤ 0 →
  let place := totalPagesCount s * PageSize + to_uint (virtualAddr (code noffH)) in
  let bytes := ReadAt executable (size (code noffH)) (inFileAddr (code noffH)) in
  let top := (totalPagesCount s + numPages this) * PageSize in
  (∀ j : nat, (j < length bytes)%nat →
     mainMemory s' !! (Z.to_nat place + j)%nat = bytes !! j) ∧
  (∀ i : nat, Z.of_nat i < top →
     Z.of_nat i < place ∨ place + Z.of_nat (length bytes) ≤ Z.of_nat i →
     mainMemory s' !! i = Some x00).
Proof.
  intros Hok Hc H Hhdr Hcode Hdata place bytes top.
  destruct (image_memory executable s this s' Hok Hc H)
    as (noffH' & Hhdr' & Htop & Hplaced & Hmem & _).
  assert (noffH' = noffH) as -> by congruence.
  destruct (Hplaced Hcode) as [_ Hfit]. specialize (Hmem Hdata).
  destruct (Z.gtb_spec (size (code noffH)) 0); [|lia].
  fold place bytes top in Hfit, Hmem, Htop.
  pose proof (to_uint_range (virtualAddr (code noffH))) as Hu.
  assert (0 ≤ place) as Hp0 by (destruct Hok; unfold place; nia).
  assert (0 ≤ top) as Ht0 by (destruct Hok; unfold top; nia).
  set (zeroed := replicate (Z.to_nat top) x00
                 ++ drop (Z.to_nat top) (mainMemory s)) in *.
  assert (length zeroed = length (mainMemory s)) as Hzlen.
  { unfold zeroed. rewrite length_app, length_replicate, length_drop. lia. }
  rewrite Hmem. split.
  - intros j Hj. apply lookup_store_bytes_in; [done|lia|done].
  - intros i Hi Hout.
    rewrite lookup_store_bytes_out by (try done; lia).
    unfold zeroed. rewrite lookup_app_l by (rewrite length_replicate; lia).
    apply lookup_replicate_2. lia.
Qed.

(** Tables that exist when a constructor starts are still there, up to use
    bits, when it returns. *)
Lemma constructor_keeps_tables s this s' p (tbl : list TranslationEntry) :
  returned_by_constructor s this s' →
  heap s !! p = Some tbl →
  p ≠ pageTable this ∧
  ∃ tbl', heap s' !! p = Some tbl' ∧ set_use <$> tbl' = set_use <$> tbl.
Proof.
  intros Hbuilt Hp.
  assert (∃ s1, setup_pageTable (numPages this) s = Done (this, s1) ∧
            same_mappings s1 s') as (s1 & Hsetup & _ & Hsame).
  { destruct Hbuilt as [[executable H]|(n & b & Hn & H)].
    - apply AddrSpace_image_inv in H
        as (noffH & s1 & s2 & _ & Hn & Hle & Hsetup & Hzero & Hload).
      exists s1. rewrite Hn. split; [done|].
      eapply same_mappings_trans;
        [by eapply zero_memory_same_mappings
        |by eapply load_segments_same_mappings].
    - apply AddrSpace_fork_inv in H as (s1 & Hn' & Hle & Hsetup & Hcopy).
      exists s1. rewrite Hn'. split; [done|].
      by eapply copy_parent_same_mappings. }
  apply setup_pageTable_heap in Hsetup as [Hthis Hheap].
  assert (p ≠ pageTable this) as Hne.
  { intros ->. rewrite Hthis in Hp. simpl in Hp.
    by rewrite new_loc_fresh in Hp. }
  split; [done|]. apply Hsame.
  rewrite Hheap, lookup_insert_ne; [done|].
  rewrite Hthis in Hne. simpl in Hne. congruence.
Qed.

(** X12: two address spaces never share a frame or a table. When a second
    space is constructed right after a first, the first one's page table is
    still in place with the frames it had, the second has a table of its
    own, and every frame of the second lies above every frame of the
    first. *)
Theorem address_spaces_do_not_overlap s one s1 two s2 :
  machine_ok → 0 ≤ totalPagesCount s ≤ NumPhysPages →
  returned_by_constructor s one s1 →
  returned_by_constructor s1 two s2 →
  pageTable one ≠ pageTable two ∧
  ∃ tbl1 tbl2,
    heap s2 !! pageTable one = Some tbl1 ∧
    heap s2 !! pageTable two = Some tbl2 ∧
    physicalPage <$> tbl1 = seqZ (totalPagesCount s) (numPages one) ∧
    physicalPage <$> tbl2
    = seqZ (totalPagesCount s + numPages one) (numPages two) ∧
    ∀ x y, x ∈ physicalPage <$> tbl1 → y ∈ physicalPage <$> tbl2 → x < y.
Proof.
  intros Hok Hc Hone Htwo.
  pose proof (frames_fit _ _ _ Hok) as Hfit. unfold INT_MAX in Hfit.
  destruct (returned_by_constructor_inv _ _ _ Hok Hc Hone)
    as (Hn1 & Hsum1 & Hcount1 & tbl & Htbl & Heq).
  assert (0 ≤ totalPagesCount s1 ≤ NumPhysPages) as Hc1 by lia.
  destruct (returned_by_constructor_inv _ _ _ Hok Hc1 Htwo)
    as (Hn2 & Hsum2 & Hcount2 & tbl2 & Htbl2 & Heq2).
  destruct (constructor_keeps_tables _ _ _ _ _ Htwo Htbl)
    as (Hne & tbl1 & Htbl1 & Heq1).
  split; [done|]. exists tbl1, tbl2. split; [done|]. split; [done|].
  assert (physicalPage <$> tbl1 = seqZ (totalPagesCount s) (numPages one))
    as Hf1.
  { rewrite <- physicalPage_set_use, Heq1, Heq, physicalPage_set_use.
    apply physicalPage_fill_pageTable; lia. }
  assert (physicalPage <$> tbl2
          = seqZ (totalPagesCount s + numPages one) (numPages two)) as Hf2.
  { rewrite <- physicalPage_set_use, Heq2, physicalPage_set_use, Hcount1.
    apply physicalPage_fill_pageTable; lia. }
  split; [done|]. split; [done|].
  intros x y. rewrite Hf1, Hf2, !elem_of_seqZ. lia.
Qed.

(** X8: a code segment whose address does not translate leaves the address
    it is copied to uninitialised. The constructor ignores the outcome of
    [Translate], so for an image with a code segment linked at a misaligned
    address, or at an address past the pages of the image, it goes on to
    use a variable nothing was written to. *)
Theorem image_unmapped_code_is_undefined executable s noffH :
  machine_ok → 0 ≤ totalPagesCount s ≤ NumPhysPages →
  Z.of_nat (length (mainMemory s)) = MemorySize →
  read_header executable = Done noffH →
  totalPagesCount s + image_numPages noffH ≤ NumPhysPages →
  0 < size (code noffH) →
  Z.land (virtualAddr (code noffH)) 3 ≠ 0
  ∨ image_numPages noffH * PageSize ≤ to_uint (virtualAddr (code noffH)) →
  AddrSpace_image executable s = Undefined.
Proof.
  intros Hok Hc Hlen Hhdr Hroom Hsize Hunmapped.
  pose proof (frames_fit _ _ _ Hok) as Hfit. unfold INT_MAX in Hfit.
  pose proof Hok as (Hpos & Hps & Hmem & Hmax). unfold INT_MAX in Hmax.
  assert (0 ≤ image_numPages noffH) as Hnn.
  { apply divRoundUp_nonneg; [apply to_uint_range|done]. }
  unfold Nachos.AddrSpace_image. rewrite Hhdr. simpl.
  destruct (Z.leb_spec (image_numPages noffH) NumPhysPages); [|lia]. simpl.
  unfold Nachos.setup_pageTable. simpl.
  rewrite to_int_small by lia.
  destruct (Z.leb_spec (totalPagesCount s + image_numPages noffH)
              NumPhysPages); [|lia]. simpl.
  unfold Nachos.zero_memory, bzero. simpl.
  rewrite to_uint_small by nia.
  destruct (Z.leb_spec ((totalPagesCount s + image_numPages noffH) * PageSize)
              (Z.of_nat (length (mainMemory s)))); [|nia]. simpl.
  unfold Nachos.load_segments, Nachos.load_segment.
  destruct (Z.gtb_spec (size (code noffH)) 0); [|lia].
  match goal with
  | |- context [Nachos.Translate _ _ _ ?this ?va ?pg ?n ?st] =>
      destruct (Translate_filled this va pg st
                  (fill_pageTable (image_numPages noffH) (totalPagesCount s))
                  (totalPagesCount s) Hok) as [_ Hbad];
        [simpl; apply lookup_insert_eq|done|done|lia|done|]
  end.
  rewrite (Hbad Hunmapped). reflexivity.
Qed.

End MoreProperties.

(** ** Starting a program *)

Section StartProperties.

Variables PageSize NumPhysPages MemorySize : Z.
Variables (UserStackSize NOFFMAGIC : Z) (WordToHost : Z → Z).
Variables (sizeof_noffH : Z) (cast_noffH : list byte → NoffHeader).
Variables NumTotalRegs PCReg NextPCReg StackReg : Z.

Local Abbreviation machine_ok := (machine_ok PageSize NumPhysPages MemorySize).
Local Abbreviation Translate := (Translate PageSize NumPhysPages MemorySize).
Local Abbreviation returned_by_constructor :=
  (returned_by_constructor PageSize NumPhysPages MemorySize UserStackSize
                           NOFFMAGIC WordToHost sizeof_noffH cast_noffH).
Local Abbreviation InitRegisters :=
  (InitRegisters PageSize NumTotalRegs PCReg NextPCReg StackReg).
Local Abbreviation register_layout_ok :=
  (register_layout_ok NumTotalRegs PCReg NextPCReg StackReg).

Implicit Types (this : AddrSpace) (s : State).

(** The register file [InitRegisters] leaves. *)
Lemma InitRegisters_result this s :
  0 ≤ PCReg < NumTotalRegs → 0 ≤ NextPCReg < NumTotalRegs →
  0 ≤ StackReg < NumTotalRegs →
  Z.of_nat (length (registers s)) = NumTotalRegs →
  InitRegisters this s
  = Done (set_registers
            (<[Z.to_nat StackReg := to_int (to_uint (numPages this * PageSize - 16))]>
               (<[Z.to_nat NextPCReg := 4]>
                  (<[Z.to_nat PCReg := 0]>
                     (replicate (Z.to_nat NumTotalRegs) 0)))) s).
Proof.
  intros HPC HNext HSP Hlen.
  destruct (zero_loop (Z.to_nat NumTotalRegs) 0 s)
    as (s0 & Hloop & Hs0 & Hl0 & Hregs0); [lia..|].
  assert (registers s0 = replicate (Z.to_nat NumTotalRegs) 0) as Hzero.
  { apply list_eq. intros i. rewrite Hregs0. case_decide.
    - symmetry. apply lookup_replicate_2. lia.
    - rewrite lookup_ge_None_2 by lia.
      symmetry. apply lookup_replicate_None. lia. }
  unfold Nachos.InitRegisters. rewrite Hloop. simpl.
  rewrite WriteRegister_Done by lia. simpl.
  rewrite WriteRegister_Done by (simpl; rewrite length_insert; lia). simpl.
  rewrite WriteRegister_Done by (simpl; rewrite !length_insert; lia). simpl.
  rewrite Hzero.
  assert (totalPagesCount s0 = totalPagesCount s ∧
          mainMemory s0 = mainMemory s ∧ heap s0 = heap s)
    as (E1 & E2 & E3) by (by rewrite Hs0).
  unfold set_registers. simpl. by rewrite E1, E2, E3.
Qed.

(** X9: [InitRegisters] leaves nothing of what the registers held: started
    on two machines that differ only in their registers, it ends with the
    same register file on both, and running it a second time changes
    nothing. *)
Theorem InitRegisters_forgets this s1 s2 :
  0 ≤ PCReg < NumTotalRegs → 0 ≤ NextPCReg < NumTotalRegs →
  0 ≤ StackReg < NumTotalRegs →
  Z.of_nat (length (registers s1)) = NumTotalRegs →
  Z.of_nat (length (registers s2)) = NumTotalRegs →
  ∃ s1' s2',
    InitRegisters this s1 = Done s1' ∧ InitRegisters this s2 = Done s2' ∧
    registers s1' = registers s2' ∧
    InitRegisters this s1' = Done s1'.
Proof.
  intros HPC HNext HSP Hl1 Hl2.
  rewrite (InitRegisters_result this s1), (InitRegisters_result this s2)
    by done.
  eexists _, _. split; [done|]. split; [done|]. split; [done|].
  rewrite InitRegisters_result; try done.
  simpl. rewrite !length_insert, length_replicate. lia.
Qed.

(** X10: a program can start. After either constructor and
    [InitRegisters], on an address space of at least 16 bytes, the program
    counter holds an address that translates to the first byte of the
    space's first frame, and the stack pointer one that translates to 16
    bytes below the end of its last frame: neither the first instruction
    fetch nor the first stack access faults. *)
Theorem first_accesses_translate s this s' :
  machine_ok → register_layout_ok →
  0 ≤ totalPagesCount s ≤ NumPhysPages →
  returned_by_constructor s this s' →
  Z.of_nat (length (registers s')) = NumTotalRegs →
  16 ≤ numPages this * PageSize →
  ∃ s2 pc sp s3 s4,
    InitRegisters this s' = Done s2 ∧
    registers s2 !! Z.to_nat PCReg = Some pc ∧
    registers s2 !! Z.to_nat StackReg = Some sp ∧
    Translate this pc (pageTable this) (numPages this) s2
    = Done (NoException, Some (totalPagesCount s * PageSize), s3) ∧
    Translate this sp (pageTable this) (numPages this) s2
    = Done (NoException,
            Some ((totalPagesCount s + numPages this) * PageSize - 16), s4).
Proof.
  intros Hok (HPC & HNext & HSP & Hne1 & Hne2 & Hne3) Hc Hbuilt Hlen Hsize.
  pose proof (frames_fit _ _ _ Hok) as Hfit. unfold INT_MAX in Hfit.
  pose proof Hok as (Hpos & Hps & Hmem & Hmax). unfold INT_MAX in Hmax.
  destruct (returned_by_constructor_inv _ _ _ _ _ _ _ _ _ _ _ Hok Hc Hbuilt)
    as (Hn & Hsum & Hcount & tbl & Htbl & Heq).
  assert (numPages this * PageSize ≤ MemorySize) as Hspace by nia.
  rewrite InitRegisters_result by done.
  rewrite to_int_to_uint, to_int_small by lia.
  eexists _, 0, (numPages this * PageSize - 16).
  assert (∀ r : Z, 0 ≤ r < NumTotalRegs →
            (Z.to_nat r < length (replicate (Z.to_nat NumTotalRegs) 0%Z))%nat)
    as Hin by (intros; rewrite length_replicate; lia).
  set (s2 := set_registers _ s').
  destruct (Translate_filled PageSize NumPhysPages MemorySize this 0
              (pageTable this) s2 tbl (totalPagesCount s) Hok Htbl Heq Hn)
    as [Hpc _]; [lia|done|].
  destruct (Translate_filled PageSize NumPhysPages MemorySize this
              (numPages this * PageSize - 16)
              (pageTable this) s2 tbl (totalPagesCount s) Hok Htbl Heq Hn)
    as [Hsp _]; [lia|done|].
  destruct Hpc as (s3 & HTpc & _); [done|rewrite to_uint_small; lia|].
  destruct Hsp as (s4 & HTsp & _).
  { rewrite land_3_mod_4.
    apply Z.mod_divide in Hps as [q ->]; [|lia].
    replace (numPages this * (q * 4) - 16)
      with ((numPages this * q - 4) * 4) by ring.
    apply Z_mod_mult. }
  { rewrite to_uint_small; lia. }
  rewrite to_uint_small in HTpc, HTsp by lia.
  exists s3, s4. split; [done|]. subst s2. simpl.
  split.
  { rewrite !list_lookup_insert_ne by lia.
    apply list_lookup_insert_eq. by apply Hin. }
  split.
  { apply list_lookup_insert_eq. rewrite !length_insert. by apply Hin. }
  split.
  - rewrite HTpc. by rewrite Z.add_0_r.
  - rewrite HTsp. repeat f_equal; lia.
Qed.

End StartProperties.

(** ** The further properties at the concrete machine *)

Lemma sample_boot_counter : 0 ≤ totalPagesCount Sample.boot ≤ 32.
Proof. simpl. lia. Defined.

Lemma sample_first_returned :
  returned_by_constructor 128 32 4096 1024 Sample.magic id 40 Sample.le_noffH
    Sample.boot Sample.first Sample.loaded1.
Proof. left. exists Sample.image. vm_compute. reflexivity. Defined.

Lemma sample_loaded1_counter : totalPagesCount Sample.loaded1 = 9.
Proof. vm_compute. reflexivity. Defined.

Lemma sample_loaded1_memory :
  Z.of_nat (length (mainMemory Sample.loaded1)) = 4096.
Proof. vm_compute. reflexivity. Defined.


(** With all 32 frames committed, a fork of one page stops. *)
Lemma constructors_abort_without_frames_witness :
  machine_ok 128 32 4096 ∧
  0 ≤ totalPagesCount Sample.full ≤ 32 ∧
  32 < totalPagesCount Sample.full + 1 ∧
  AddrSpace_fork 128 32 1 0 Sample.full = Abort.
Proof.
  assert (0 ≤ totalPagesCount Sample.full ≤ 32) as Hc by (simpl; lia).
  assert (32 < totalPagesCount Sample.full + 1) as Hfull by (simpl; lia).
  split; [exact sample_machine_ok|]. split; [exact Hc|]. split; [exact Hfull|].
  destruct (constructors_abort_without_frames 128 32 4096 1024 Sample.magic id
              40 Sample.le_noffH Sample.full sample_machine_ok Hc)
    as [_ Hfork].
  exact (Hfork 1 0 Hfull).
Defined.

Lemma accessors_after_construction_witness :
  machine_ok 128 32 4096 ∧
  0 ≤ totalPagesCount Sample.boot ≤ 32 ∧
  returned_by_constructor 128 32 4096 1024 Sample.magic id 40 Sample.le_noffH
    Sample.boot Sample.first Sample.loaded1 ∧
  0 < getNumPages Sample.first ∧
  getStartPhysPage Sample.first Sample.loaded1
  = Done (totalPagesCount Sample.boot).
Proof.
  assert (0 < getNumPages Sample.first) as Hn by (vm_compute; reflexivity).
  split; [exact sample_machine_ok|]. split; [exact sample_boot_counter|].
  split; [exact sample_first_returned|]. split; [exact Hn|].
  destruct (accessors_after_construction 128 32 4096 1024 Sample.magic id 40
              Sample.le_noffH Sample.boot Sample.first Sample.loaded1
              sample_machine_ok sample_boot_counter sample_first_returned)
    as (_ & Hstart & _).
  exact (Hstart Hn).
Defined.

Lemma Translate_on_constructed_witness :
  Z.land 260 3 = 0 ∧ to_uint 260 < numPages Sample.first * 128 ∧
  ∃ s'', Sample.translate Sample.first 260 (pageTable Sample.first)
           (numPages Sample.first) Sample.loaded1
         = Done (NoException,
                 Some (totalPagesCount Sample.boot * 128 + to_uint 260), s'').
Proof.
  assert (Z.land 260 3 = 0) as Hal by reflexivity.
  assert (to_uint 260 < numPages Sample.first * 128) as Hin
    by (vm_compute; reflexivity).
  split; [exact Hal|]. split; [exact Hin|].
  destruct (Translate_on_constructed 128 32 4096 1024 Sample.magic id 40
              Sample.le_noffH Sample.boot Sample.first Sample.loaded1 260
              (pageTable Sample.first)
              sample_machine_ok sample_boot_counter sample_first_returned)
    as [Hgood _].
  exact (Hgood Hal Hin).
Defined.

Lemma Translate_negative_address_witness :
  0 < 128 ∧ - 2 ^ 31 ≤ -4 < 0 ∧ 3 * 128 ≤ 2 ^ 31 ∧
  Sample.translate Sample.space (-4) 1%positive 3 Sample.mapped
  = Done (AddressErrorException, None, Sample.mapped).
Proof.
  assert (0 < 128) as H1 by lia.
  assert (- 2 ^ 31 ≤ -4 < 0) as H2 by lia.
  assert (3 * 128 ≤ 2 ^ 31) as H3 by lia.
  split; [exact H1|]. split; [exact H2|]. split; [exact H3|].
  exact (Translate_negative_address 128 32 4096 Sample.space (-4) 1%positive 3
           Sample.mapped H1 H2 H3).
Defined.

(** An image with code and initialised data, loaded at boot. *)
Lemma image_memory_layout_witness :
  machine_ok 128 32 4096 ∧ 0 ≤ totalPagesCount Sample.boot ≤ 32 ∧
  Sample.exec Sample.data_image Sample.boot
  = Done (Sample.space_of (Sample.exec Sample.data_image Sample.boot),
          Sample.state_of (Sample.exec Sample.data_image Sample.boot)) ∧
  ∃ noffH,
    read_header Sample.magic id 40 Sample.le_noffH Sample.data_image
    = Done noffH.
Proof.
  assert (Sample.exec Sample.data_image Sample.boot
          = Done (Sample.space_of (Sample.exec Sample.data_image Sample.boot),
                  Sample.state_of (Sample.exec Sample.data_image Sample.boot)))
    as Hrun by (vm_compute; reflexivity).
  split; [exact sample_machine_ok|]. split; [exact sample_boot_counter|].
  split; [exact Hrun|].
  destruct (image_memory_layout 128 32 4096 1024 Sample.magic id 40
              Sample.le_noffH Sample.data_image Sample.boot _ _
              sample_machine_ok sample_boot_counter Hrun)
    as (noffH & Hhdr & _).
  exists noffH. exact Hhdr.
Defined.

(** A code segment linked at address 2. *)
Lemma image_unmapped_code_is_undefined_witness :
  Sample.exec Sample.misaligned_image Sample.boot = Undefined.
Proof.
  assert (Z.of_nat (length (mainMemory Sample.boot)) = 4096) as Hlen
    by reflexivity.
  assert (read_header Sample.magic id 40 Sample.le_noffH
            Sample.misaligned_image
          = Done (Sample.le_noffH (ReadAt Sample.misaligned_image 40 0)))
    as Hhdr by (vm_compute; reflexivity).
  assert (totalPagesCount Sample.boot
          + image_numPages 128 1024
              (Sample.le_noffH (ReadAt Sample.misaligned_image 40 0)) ≤ 32)
    as Hroom by (intros H; vm_compute in H; discriminate H).
  assert (0 < size (code (Sample.le_noffH
                            (ReadAt Sample.misaligned_image 40 0))))
    as Hsize by (vm_compute; reflexivity).
  assert (Z.land (virtualAddr (code (Sample.le_noffH
                     (ReadAt Sample.misaligned_image 40 0)))) 3 ≠ 0)
    as Hodd by (intros H; vm_compute in H; discriminate H).
  exact (image_unmapped_code_is_undefined 128 32 4096 1024 Sample.magic id 40
           Sample.le_noffH Sample.misaligned_image Sample.boot _
           sample_machine_ok sample_boot_counter Hlen Hhdr Hroom Hsize
           (or_introl Hodd)).
Defined.

Lemma InitRegisters_forgets_witness :
  ∃ s1' s2',
    Sample.init_registers Sample.first Sample.boot = Done s1' ∧
    Sample.init_registers Sample.first Sample.used_registers = Done s2' ∧
    registers s1' = registers s2'.
Proof.
  destruct (InitRegisters_forgets 128 40 34 35 29 Sample.first Sample.boot
              Sample.used_registers ltac:(lia) ltac:(lia) ltac:(lia)
              eq_refl eq_refl)
    as (s1' & s2' & H1 & H2 & Hsame & _).
  exists s1', s2'. split; [exact H1|]. split; [exact H2|]. exact Hsame.
Defined.

Lemma first_accesses_translate_witness :
  register_layout_ok 40 34 35 29 ∧
  Z.of_nat (length (registers Sample.loaded1)) = 40 ∧
  16 ≤ numPages Sample.first * 128 ∧
  ∃ s2 sp, Sample.init_registers Sample.first Sample.loaded1 = Done s2 ∧
           registers s2 !! Z.to_nat 29 = Some sp.
Proof.
  assert (register_layout_ok 40 34 35 29) as Hlayout
    by (unfold register_layout_ok; lia).
  assert (Z.of_nat (length (registers Sample.loaded1)) = 40) as Hlen
    by (vm_compute; reflexivity).
  assert (16 ≤ numPages Sample.first * 128) as Hsize
    by (intros H; vm_compute in H; discriminate H).
  split; [exact Hlayout|]. split; [exact Hlen|]. split; [exact Hsize|].
  destruct (first_accesses_translate 128 32 4096 1024 Sample.magic id 40
              Sample.le_noffH 40 34 35 29 Sample.boot Sample.first
              Sample.loaded1 sample_machine_ok Hlayout sample_boot_counter
              sample_first_returned Hlen Hsize)
    as (s2 & pc & sp & s3 & s4 & Hrun & _ & Hsp & _).
  exists s2, sp. split; [exact Hrun|]. exact Hsp.
Defined.

Lemma image_code_and_zeroes_witness :
  0 < size (code (Sample.le_noffH (ReadAt Sample.image 40 0))) ∧
  size (initData (Sample.le_noffH (ReadAt Sample.image 40 0))) ≤ 0 ∧
  ∀ i : nat,
    Z.of_nat i
    < (totalPagesCount Sample.boot + numPages Sample.first) * 128 →
    Z.of_nat i
    < totalPagesCount Sample.boot * 128
      + to_uint (virtualAddr (code (Sample.le_noffH (ReadAt Sample.image 40 0))))
    ∨ totalPagesCount Sample.boot * 128
      + to_uint (virtualAddr (code (Sample.le_noffH (ReadAt Sample.image 40 0))))
      + Z.of_nat (length (ReadAt Sample.image
           (size (code (Sample.le_noffH (ReadAt Sample.image 40 0))))
           (inFileAddr (code (Sample.le_noffH (ReadAt Sample.image 40 0))))))
      ≤ Z.of_nat i →
    mainMemory Sample.loaded1 !! i = Some x00.
Proof.
  assert (Sample.exec Sample.image Sample.boot
          = Done (Sample.first, Sample.loaded1)) as Hrun
    by (vm_compute; reflexivity).
  assert (read_header Sample.magic id 40 Sample.le_noffH Sample.image
          = Done (Sample.le_noffH (ReadAt Sample.image 40 0)))
    as Hhdr by (vm_compute; reflexivity).
  assert (0 < size (code (Sample.le_noffH (ReadAt Sample.image 40 0))))
    as Hcode by (vm_compute; reflexivity).
  assert (size (initData (Sample.le_noffH (ReadAt Sample.image 40 0))) ≤ 0)
    as Hdata by (intros H; vm_compute in H; discriminate H).
  split; [exact Hcode|]. split; [exact Hdata|].
  destruct (image_code_and_zeroes 128 32 4096 1024 Sample.magic id 40
              Sample.le_noffH Sample.image Sample.boot Sample.first
              Sample.loaded1 _ sample_machine_ok sample_boot_counter Hrun
              Hhdr Hcode Hdata) as [_ Hzero].
  exact Hzero.
Defined.

Lemma sample_second_returned :
  returned_by_constructor 128 32 4096 1024 Sample.magic id 40 Sample.le_noffH
    Sample.loaded1 Sample.second Sample.loaded2.
Proof. left. exists Sample.image. vm_compute. reflexivity. Defined.

Lemma address_spaces_do_not_overlap_witness :
  pageTable Sample.first ≠ pageTable Sample.second.
Proof.
  destruct (address_spaces_do_not_overlap 128 32 4096 1024 Sample.magic id 40
              Sample.le_noffH Sample.boot Sample.first Sample.loaded1
              Sample.second Sample.loaded2 sample_machine_ok
              sample_boot_counter sample_first_returned
              sample_second_returned) as [Hne _].
  exact Hne.
Defined.

Lemma constructors_keep_counter_bound_witness :
  0 ≤ totalPagesCount Sample.loaded1 ≤ 32.
Proof.
  assert (Sample.exec Sample.image Sample.boot
          = Done (Sample.first, Sample.loaded1)) as Hrun
    by (vm_compute; reflexivity).
  destruct (constructors_keep_counter_bound 128 32 4096 1024 Sample.magic id
              40 Sample.le_noffH Sample.boot sample_machine_ok
              sample_boot_counter) as [Himage _].
  exact (Himage Sample.image Sample.first Sample.loaded1 Hrun).
Defined.

Lemma image_zero_fill_from_zero_witness :
  ∃ s2, ∀ i,
    0 ≤ i < (totalPagesCount Sample.loaded1 + numPages Sample.second) * 128 →
    mainMemory s2 !! Z.to_nat i = Some x00.
Proof.
  assert (0 ≤ totalPagesCount Sample.loaded1 ≤ 32) as Hc
    by (rewrite sample_loaded1_counter; lia).
  assert (Sample.exec Sample.image Sample.loaded1
          = Done (Sample.second, Sample.loaded2)) as Hrun
    by (vm_compute; reflexivity).
  destruct (image_zero_fill_from_zero 128 32 4096 1024 Sample.magic id 40
              Sample.le_noffH Sample.image Sample.loaded1 Sample.second
              Sample.loaded2 sample_machine_ok Hc Hrun)
    as (noffH & s1 & s2 & _ & _ & _ & Hzero).
  exists s2. exact Hzero.
Defined.

Lemma fork_copies_whole_witness :
  ∃ this s', Sample.fork 9 0 Sample.loaded1 = Done (this, s').
Proof.
  destruct (fork_copies_whole 128 32 4096 9 Sample.loaded1 sample_machine_ok
              sample_loaded1_memory)
    as (this & s' & Hrun & _);
    [lia|rewrite sample_loaded1_counter; lia
    |rewrite sample_loaded1_counter; lia|].
  exists this, s'. exact Hrun.
Defined.

Lemma fork_copies_short_witness :
  ∃ this s', Sample.fork 9 9 Sample.loaded2 = Done (this, s').
Proof.
  assert (totalPagesCount Sample.loaded2 = 18) as Hc
    by (vm_compute; reflexivity).
  assert (Z.of_nat (length (mainMemory Sample.loaded2)) = 4096) as Hlen
    by (vm_compute; reflexivity).
  destruct (fork_copies_short 128 32 4096 9 9 Sample.loaded2 sample_machine_ok
              Hlen)
    as (_ & this & s' & Hrun & _);
    [lia|lia|rewrite Hc; lia|rewrite Hc; lia|].
  exists this, s'. exact Hrun.
Defined.
